(** * Label microservice: calibration, routing, prediction and consumer

    A shallow embedding of the decision core of kubeflow/Code-Intelligence
    ([py/label_microservice]) and the properties its specification states
    about it.

    Layout: the embedding comes first (one module per Python source file,
    preceded by the few notions of the Python runtime and of the numeric
    libraries the code relies on), the theorems follow. *)

From Stdlib Require Import QArith Qcanon ZArith Ascii.
From stdpp Require Import gmap strings list fin_maps numbers pretty sorting.

Open Scope Qc_scope.
Set Warnings "-register-all".

(** ** Python runtime notions *)

Module Py.

(** Exception classes that occur in the modelled code. The last three
    derive from [BaseException] only: an [except Exception] clause does not
    catch them. *)
Inductive exc_class : Type :=
  | KeyError
  | ValueError
  | TypeError
  | IndexError
  | OtherException (name : string)
  | SystemExit
  | KeyboardInterrupt
  | GeneratorExit.

Definition is_Exception (c : exc_class) : bool :=
  match c with
  | SystemExit | KeyboardInterrupt | GeneratorExit => false
  | _ => true
  end.

Record exn : Type := mk_exn { exn_class : exc_class; exn_msg : string }.

(** A call either returns a value or raises. *)
Inductive result (A : Type) : Type :=
  | Ok (a : A)
  | Raise (e : exn).
Arguments Ok {A} a.
Arguments Raise {A} e.

#[export] Instance result_ret : MRet result := fun A a => Ok a.

#[export] Instance result_bind : MBind result := fun A B k r =>
  match r with
  | Ok a => k a
  | Raise e => Raise e
  end.

(** Computations that also leave a trace of observable events: calls to
    collaborators, log records. *)
Definition io (E A : Type) : Type := (list E * result A)%type.

#[export] Instance io_ret {E} : MRet (io E) := fun A a => ([], Ok a).

#[export] Instance io_bind {E} : MBind (io E) := fun A B k m =>
  match m with
  | (t, Ok a) => let '(t', r) := k a in (t ++ t', r)
  | (t, Raise e) => (t, Raise e)
  end.

Definition emit {E} (e : E) : io E unit := ([e], Ok tt).
Definition lift {E A} (r : result A) : io E A := ([], r).
Definition raise {E A} (c : exc_class) (msg : string) : io E A :=
  ([], Raise (mk_exn c msg)).

(** Dynamically typed values that travel through request payloads. *)
Inductive value : Type :=
  | VNone
  | VStr (s : string)
  | VInt (n : Z)
  | VList (l : list value).

(** Truth value of a string: only the empty string is false. *)
Definition str_truthy (s : string) : bool :=
  match s with
  | EmptyString => false
  | String _ _ => true
  end.

(** Truth value of a value, as [if v:] and [not v] take it. *)
Definition truthy (v : value) : bool :=
  match v with
  | VNone => false
  | VStr s => str_truthy s
  | VInt n => negb (Z.eqb n 0)
  | VList l => match l with [] => false | _ => true end
  end.

(** [str(v)], as an f-string renders [v]. Inside a list Python shows the
    [repr] of the items; the quoting of special characters in the [repr] of
    a string is not modelled. *)
Fixpoint py_str (v : value) : string :=
  match v with
  | VNone => "None"
  | VStr s => s
  | VInt n => pretty n
  | VList l =>
      let repr x := match x with
                    | VStr s => "'" +:+ s +:+ "'"
                    | _ => py_str x
                    end in
      let fix items (l : list value) : string :=
        match l with
        | [] => EmptyString
        | [x] => repr x
        | x :: rest => repr x +:+ ", " +:+ items rest
        end in
      "[" +:+ items l +:+ "]"
  end.

(** Python floats: the finite values are modelled by the rationals they
    denote, and NaN is kept apart because every ordered comparison with it
    is false. *)
Inductive float : Type :=
  | Fin (q : Qc)
  | NaN.

(** The float written [n/d], for literals such as 0.5. *)
Definition decimal (n : Z) (d : positive) : float := Fin (Q2Qc (n # d)).

(** [a >= b] *)
Definition float_ge (a b : float) : bool :=
  match a, b with
  | Fin x, Fin y => bool_decide (y ≤ x)
  | _, _ => false
  end.

(** [a > b] *)
Definition float_gt (a b : float) : bool :=
  match a, b with
  | Fin x, Fin y => bool_decide (y < x)
  | _, _ => false
  end.

(** Truth value of a float: zero is false, everything else (NaN too) is
    true. *)
Definition float_truthy (a : float) : bool :=
  match a with
  | Fin x => negb (bool_decide (x = 0))
  | NaN => true
  end.

(** [",".join(l)] *)
Fixpoint join (sep : string) (l : list string) : string :=
  match l with
  | [] => EmptyString
  | [x] => x
  | x :: rest => x +:+ sep +:+ join sep rest
  end.

(** [zip(a, b, c)]: stops at the shortest argument. *)
Fixpoint zip3 {A B C} (a : list A) (b : list B) (c : list C)
  : list (A * B * C) :=
  match a, b, c with
  | x :: a', y :: b', z :: c' => (x, y, z) :: zip3 a' b' c'
  | _, _, _ => []
  end.

End Py.

(** ** numpy and scikit-learn functions called by the code

    These are library functions, not code of the repository. The calibrator
    is parametric in the curve function; the definitions below follow the
    libraries' documented behaviour and serve to run the code on concrete
    data. *)

Module Np.
Import Py.

(** [np.array(rows)[:, j]] on a list of rows: the rows must form a
    rectangle and [j] must be a column of it. *)
Definition column {A} (j : nat) (rows : list (list A)) : result (list A) :=
  match rows with
  | [] => Raise (mk_exn IndexError "too many indices for array")
  | r0 :: _ =>
      if forallb (fun r => Nat.eqb (length r) (length r0)) rows
      then match mapM (fun r => r !! j) rows with
           | Some col => Ok col
           | None =>
               Raise (mk_exn IndexError "index is out of bounds for axis 1")
           end
      else Raise (mk_exn IndexError "too many indices for array")
  end.

(** [a[:-1]] *)
Definition drop_last {A} (l : list A) : list A := take (length l - 1) l.

(** A binary32 number, kept as its 32-bit pattern. *)
Definition f4 : Type := Z.

Definition byte_val (b : Byte.byte) : Z := Z.of_N (Byte.to_N b).

(** Little-endian assembly of consecutive groups of four bytes. *)
Fixpoint le_words (bs : list Byte.byte) : list f4 :=
  match bs with
  | b0 :: b1 :: b2 :: b3 :: rest =>
      Z.lor (byte_val b0)
        (Z.lor (Z.shiftl (byte_val b1) 8)
           (Z.lor (Z.shiftl (byte_val b2) 16) (Z.shiftl (byte_val b3) 24)))
      :: le_words rest
  | _ => []
  end.

(** [np.frombuffer(content, dtype='<f4')] *)
Definition frombuffer_f4 (content : list Byte.byte) : result (list f4) :=
  if Nat.eqb (length content mod 4) 0 then Ok (le_words content)
  else Raise (mk_exn ValueError
                     "buffer size must be a multiple of element size").

End Np.

Module Sklearn.
Import Py.

(** One held-out sample for one label: the classifier's score and whether
    the label is truly present. *)
Definition sample : Type := (Qc * bool)%type.

(** Stable insertion of a sample in a list sorted by decreasing score. *)
Fixpoint insert_desc (s : sample) (l : list sample) : list sample :=
  match l with
  | [] => [s]
  | x :: rest =>
      if bool_decide (x.1 < s.1) then s :: l else x :: insert_desc s rest
  end.

Definition sort_desc (l : list sample) : list sample :=
  foldr insert_desc [] l.

(** [_binary_clf_curve]: walking the samples by decreasing score, emit at
    the last sample of every run of equal scores the pair (true positives,
    false positives) counted so far and the score. *)
Fixpoint clf_curve (tps fps : nat) (l : list sample) : list (nat * nat * Qc) :=
  match l with
  | [] => []
  | (score, y) :: rest =>
      let tps' := if y then S tps else tps in
      let fps' := if y then fps else S fps in
      match rest with
      | (next, _) :: _ =>
          if bool_decide (next = score) then clf_curve tps' fps' rest
          else (tps', fps', score) :: clf_curve tps' fps' rest
      | [] => [(tps', fps', score)]
      end
  end.

Definition ratio (a b : nat) : float :=
  if Nat.eqb b 0 then NaN
  else Fin (Q2Qc (Z.of_nat a # Pos.of_nat b)).

(** Index of the first point that reaches [total] true positives
    ([tps.searchsorted(tps[-1])]). *)
Fixpoint first_full (total : nat) (pts : list (nat * nat * Qc)) : nat :=
  match pts with
  | [] => 0
  | (tps, _, _) :: rest =>
      if Nat.leb total tps then 0 else S (first_full total rest)
  end.

(** [precision_recall_curve(y_true, probas_pred)]: precision and recall of
    the decision "score >= threshold" for every distinct score, cut where
    full recall is first attained and reversed, so that thresholds increase
    and recall decreases; a final precision 1 and recall 0 are appended.
    Without any positive sample the recall is 0/0, NaN. This is the
    function of the releases the repository was written against; later
    releases keep the points beyond full recall and set the recall to 1
    when there is no positive sample, with the arrays in the same order. *)
Definition precision_recall_curve
    (y_true : list bool) (probas_pred : list float)
  : result (list float * list float * list float) :=
  match mapM (fun p => match p with Fin q => Some q | NaN => None end)
             probas_pred with
  | None => Raise (mk_exn ValueError "Input contains NaN")
  | Some scores =>
      let pts := clf_curve 0 0 (sort_desc (zip scores y_true)) in
      let total := match pts !! (length pts - 1)%nat with
                   | Some (tps, _, _) => tps
                   | None => 0%nat
                   end in
      let kept := reverse (take (S (first_full total pts)) pts) in
      Ok (map (fun '(tps, fps, _) => ratio tps (tps + fps)) kept ++ [Fin 1],
          map (fun '(tps, _, _) => ratio tps total) kept ++ [Fin 0],
          map (fun '(_, _, thr) => Fin thr) kept)
  end.

End Sklearn.

(** ** mlp.py *)

Module Mlp.
Import Py.

(** The fields of [MLPWrapper] that calibration reads and writes. The
    three tables are dictionaries from label index to a number or [None]
    (the inner [option] of [probability_thresholds]); calibration starts
    by emptying them. *)
Record MLPWrapper : Type := mk_MLPWrapper {
  precision_threshold : float;
  recall_threshold : float;
  precisions : gmap nat float;
  probability_thresholds : gmap nat (option float);
  recalls : gmap nat float;
  total_labels_count : option nat
}.

(** [MLPWrapper.__init__] with a classifier passed in. *)
Definition init (precision_threshold recall_threshold : float) : MLPWrapper :=
  mk_MLPWrapper precision_threshold recall_threshold ∅ ∅ ∅ None.

(** The loop variables [best_precision, best_recall, best_threshold]. *)
Record best : Type := mk_best {
  best_precision : float;
  best_recall : float;
  best_threshold : option float
}.

Definition best_init : best := mk_best (Fin 0) (Fin 0) None.

(** Body of the inner loop of [find_probability_thresholds]. *)
Definition sweep_step (self : MLPWrapper) (b : best) (c : float * float * float)
  : best :=
  let '(prec, reca, thre) := c in
  if float_ge prec (precision_threshold self)
     && float_ge reca (recall_threshold self)
  then if float_gt prec (best_precision b)
       then mk_best prec reca (Some thre)
       else b
  else b.

(** The inner loop over [zip(precision[:-1], recall[:-1], threshold)]. *)
Definition sweep (self : MLPWrapper) (precision recall threshold : list float)
  : best :=
  foldl (sweep_step self) best_init
        (zip3 (Np.drop_last precision) (Np.drop_last recall) threshold).

(** The parameters of [MLPWrapper.__init__] after [self]. *)
Definition init_parameters : list string :=
  ["clf"; "model_file"; "precision_threshold"; "recall_threshold"].

(** [MLPWrapper(...)] called with the keyword arguments [keywords], where
    [clf] is the truth value of the classifier given: Python binds the
    keywords to the parameters and raises [TypeError] on a keyword the
    function does not have, before the body runs; the body raises
    [Exception] unless the classifier is true. The wording of the
    [TypeError] is the one of Python up to 3.9; later releases put the
    class name before [__init__]. *)
Definition construct (keywords : list string) (clf : bool) : result unit :=
  match filter (fun k => k ∉ init_parameters) keywords with
  | k :: _ =>
      Raise (mk_exn TypeError
               ("__init__() got an unexpected keyword argument '"
                +:+ k +:+ "'"))
  | [] =>
      if clf then Ok tt
      else Raise (mk_exn (OtherException "Exception")
                    "You need to pass a MLPClassifier object to the wrapper")
  end.

(** Type of [sklearn.metrics.precision_recall_curve]. *)
Definition curve_fn : Type :=
  list bool -> list float -> result (list float * list float * list float).

(** One iteration of the outer loop: calibrate [label] and record the
    outcome in the three tables. *)
Definition calibrate_label (prc : curve_fn)
    (y_test : list (list bool)) (y_pred : list (list float))
    (self : MLPWrapper) (label : nat) : result MLPWrapper :=
  y_true ← Np.column label y_test;
  y_score ← Np.column label y_pred;
 '(precision, recall, threshold) ← prc y_true y_score;
  let b := sweep self precision recall threshold in
  Ok (mk_MLPWrapper
        (precision_threshold self) (recall_threshold self)
        (<[label := best_precision b]> (precisions self))
        (<[label := best_threshold b]> (probability_thresholds self))
        (<[label := best_recall b]> (recalls self))
        (total_labels_count self)).

Fixpoint for_labels (prc : curve_fn)
    (y_test : list (list bool)) (y_pred : list (list float))
    (self : MLPWrapper) (labels : list nat) : result MLPWrapper :=
  match labels with
  | [] => Ok self
  | label :: rest =>
      self' ← calibrate_label prc y_test y_pred self label;
      for_labels prc y_test y_pred self' rest
  end.

(** [find_probability_thresholds], from the point where the held-out
    partition [y_test] and the fitted classifier's predictions [y_pred] on
    it are available (the split and the fit are done by scikit-learn). *)
Definition find_probability_thresholds (prc : curve_fn) (self : MLPWrapper)
    (y_test : list (list bool)) (y_pred : list (list float))
  : result MLPWrapper :=
  match y_test with
  | [] => Raise (mk_exn IndexError "list index out of range")
  | row0 :: _ =>
      let n := length row0 in
      for_labels prc y_test y_pred
        (mk_MLPWrapper (precision_threshold self) (recall_threshold self)
                       ∅ ∅ ∅ (Some n))
        (seq 0 n)
  end.

End Mlp.

(** ** issue_label_predictor.py *)

Module Predictor.
Import Py.

Definition UNIVERSAL_MODEL_NAME : string := "universal".

Definition KUBEFLOW_AUTOML_MODEL : string :=
  "projects/976279526634/locations/us-central1/models/TCN654213816573231104".

(** [_combined_model_name(org, repo=None)] *)
Definition _combined_model_name (org : value) (repo : value) : string :=
  if truthy repo
  then py_str org +:+ "/" +:+ py_str repo +:+ "_combined"
  else py_str org +:+ "_combined".

(** A request payload: the items of a dictionary in their own order (no
    key occurs twice); [",".join(data.keys())] shows that order. *)
Definition payload : Type := list (string * value).

(** [k in d] *)
Definition has_key (d : payload) (k : string) : bool :=
  bool_decide (k ∈ d.*1).

(** [_dict_has_keys(d, keys)] *)
Fixpoint _dict_has_keys (d : payload) (keys : list string) : bool :=
  match keys with
  | [] => true
  | k :: rest => if negb (has_key d k) then false else _dict_has_keys d rest
  end.

(** [d.get(k)] and [d[k]] on a payload. *)
Fixpoint payload_get (d : payload) (k : string) : value :=
  match d with
  | [] => VNone
  | (k', v) :: rest => if bool_decide (k' = k) then v else payload_get rest k
  end.

Definition payload_item (d : payload) (k : string) : result value :=
  if has_key d k then Ok (payload_get d k) else Raise (mk_exn KeyError k).

(** What the predictor does that can be observed from outside. *)
Inductive event : Type :=
  | LogInfo (msg : string)
  | LogWarning (msg : string)
  | LogError (msg : string)
  | GetIssueText (issue_number org repo : value)
  | ModelInvoked (model_name : string) (org repo title body : value).

(** The model classes are collaborators ([universal_model], [automl_model],
    [combined_model]); the predictor only calls [predict_issue_labels]. *)
Record Model : Type := mk_Model {
  model_class : string;
  predict_issue_labels :
    value -> value -> value -> value -> result (gmap string float)
}.

(** The collaborators the predictor is built from. *)
Record Env : Type := mk_Env {
  universal_model : Model;
  automl_model : string -> Model;
  combined_model : list Model -> Model;
  (** [embeddings.get_issue_text(issue_number, None, org, repo)] *)
  get_issue_text : value -> value -> value -> result (gmap string value)
}.

(** [d.get(k)] *)
Definition dict_get (d : gmap string value) (k : string) : value :=
  default VNone (d !! k).

(** [model_name in self._models] and [self._models[model_name]]: the keys
    are strings, so that [None] and integers are found absent; a list
    cannot be hashed, and the membership test raises [TypeError]. *)
Definition models_lookup (models : gmap string Model) (model_name : value)
  : result (option Model) :=
  match model_name with
  | VStr s => Ok (models !! s)
  | VList _ => Raise (mk_exn TypeError "unhashable type: 'list'")
  | VNone | VInt _ => Ok None
  end.

(** One round of the loop of [_load_models]: the model of the organisation
    and the combined model, built from [self._models["universal"]] (stored
    before the loop) and the organisation's model. *)
Definition load_org (env : Env) (models : gmap string Model) (org : string)
  : gmap string Model :=
  let org_model := automl_model env KUBEFLOW_AUTOML_MODEL in
  let models1 := <[org := org_model]> models in
  match models1 !! "universal" with
  | Some universal =>
      <[_combined_model_name (VStr org) VNone :=
          combined_model env [universal; org_model]]> models1
  | None => models1
  end.

(** [_load_models] *)
Definition _load_models (env : Env) : gmap string Model :=
  foldl (load_org env)
        (<[UNIVERSAL_MODEL_NAME := universal_model env]> ∅)
        ["kubeflow"].

(** [predict_labels_for_data(model_name, org, repo, title, body, context)];
    the context only goes into the model's log records. *)
Definition predict_labels_for_data (models : gmap string Model)
    (model_name org repo title body : value)
  : io event (gmap string float) :=
  found ← lift (models_lookup models model_name);
  match found with
  | None => raise ValueError ("No model named " +:+ py_str model_name)
  | Some model =>
      _ ← emit (LogInfo ("Generating predictions for title=" +:+ py_str title
                         +:+ " text=" +:+ py_str body +:+ " usingmodel: "
                         +:+ py_str model_name +:+ " class:"
                         +:+ model_class model));
      _ ← emit (ModelInvoked (py_str model_name) org repo title body);
      lift (predict_issue_labels model org repo title body)
  end.

(** The model the predictor resolves for [org]/[repo] when the caller did
    not name one. *)
Definition resolve_model_name (models : gmap string Model) (org repo : value)
  : string :=
  let org_model := _combined_model_name org VNone in
  let repo_model := _combined_model_name org repo in
  if bool_decide (is_Some (models !! repo_model)) then repo_model
  else if bool_decide (is_Some (models !! org_model)) then org_model
  else UNIVERSAL_MODEL_NAME.

(** [predict_labels_for_issue(org, repo, issue_number, model_name=None)] *)
Definition predict_labels_for_issue (env : Env) (models : gmap string Model)
    (org repo issue_number model_name : value)
  : io event (gmap string float) :=
  let model_name :=
    if truthy model_name then model_name
    else VStr (resolve_model_name models org repo) in
  _ ← emit (LogInfo ("Predict labels for " +:+ py_str org +:+ "/"
                     +:+ py_str repo +:+ "#" +:+ py_str issue_number
                     +:+ " using model " +:+ py_str model_name));
  _ ← emit (GetIssueText issue_number org repo);
  data ← lift (get_issue_text env issue_number org repo);
  _ ← (if truthy (dict_get data "title") then mret tt
       else emit (LogWarning ("Got empty title for " +:+ py_str org +:+ "/"
                              +:+ py_str repo +:+ "#" +:+ py_str issue_number)));
  _ ← (if truthy (dict_get data "body") then mret tt
       else emit (LogWarning ("Got empty title for " +:+ py_str org +:+ "/"
                              +:+ py_str repo +:+ "#" +:+ py_str issue_number)));
  predict_labels_for_data models model_name org repo
                          (dict_get data "title")
                          (VList [dict_get data "body"]).

(** The parameters of [predict_labels_for_data] that have no default. *)
Definition required_parameters : list string :=
  ["model_name"; "org"; "repo"; "title"; "body"].

(** A call of [self.predict_labels_for_data] with positional arguments
    [args] only: Python binds them to the required parameters (and to the
    optional [context]) and raises [TypeError] before the body runs when a
    required parameter gets no argument or when there are too many
    arguments. The wording of the message is abridged. *)
Definition call_predict_labels_for_data (models : gmap string Model)
    (args : list value) : io event (gmap string float) :=
  match args with
  | [model_name; org; repo; title; body] =>
      predict_labels_for_data models model_name org repo title body
  | [model_name; org; repo; title; body; _] =>
      predict_labels_for_data models model_name org repo title body
  | _ =>
      if Nat.ltb (length args) (length required_parameters)
      then raise TypeError
             ("predict_labels_for_data() missing "
              +:+ pretty (length required_parameters - length args)%nat
              +:+ " required positional arguments: "
              +:+ join ", " (drop (length args) required_parameters))
      else raise TypeError
             "predict_labels_for_data() takes from 6 to 7 positional arguments"
  end.

Definition text_keys : list string := ["title"; "text"; "model_name"].
Definition issue_keys : list string := ["repo_owner"; "repo_name"; "issue_num"].

(** The two accepted field sets, as the error message shows them. *)
Definition want : string :=
  "[" +:+ join "," text_keys +:+ "] or [" +:+ join "," issue_keys +:+ "]".

(** [predict(data)] *)
Definition predict (env : Env) (models : gmap string Model) (data : payload)
  : io event (gmap string float) :=
  if _dict_has_keys data text_keys then
    model_name ← lift (payload_item data "model_name");
    title ← lift (payload_item data "title");
    text ← lift (payload_item data "text");
    call_predict_labels_for_data models [model_name; title; text]
  else if _dict_has_keys data issue_keys then
    repo_owner ← lift (payload_item data "repo_owner");
    repo_name ← lift (payload_item data "repo_name");
    issue_num ← lift (payload_item data "issue_num");
    predict_labels_for_issue env models repo_owner repo_name issue_num
                             (payload_get data "model_name")
  else
    let message := "Data is missing required keys; got " +:+ join "," data.*1
                   +:+ "; want " +:+ want in
    _ ← emit (LogError message);
    raise ValueError message.

End Predictor.

(** ** worker.py *)

Module Worker.
Import Py.

(** [RepoConfig]: the paths the worker reads from [self.config]. *)
Record RepoConfig : Type := mk_RepoConfig {
  model_bucket_name : string;
  model_gcs_path : string;
  model_local_path : string;
  labels_gcs_path : string;
  labels_local_path : string
}.

Record Worker : Type := mk_Worker {
  embedding_api_endpoint : string;
  app_url : string;
  config : option RepoConfig
}.

(** [self.config], an [AttributeError] before [load_yaml] has run. *)
Definition get_config (self : Worker) : result RepoConfig :=
  match config self with
  | Some c => Ok c
  | None => Raise (mk_exn (OtherException "AttributeError")
                          "'Worker' object has no attribute 'config'")
  end.

Record Response : Type := mk_Response {
  status_code : Z;
  content : list Byte.byte
}.

Record IssueText : Type := mk_IssueText { title : string; body : string }.

(** The content of the labels file: [label_columns['labels']] and
    [label_columns['probability_thresholds']], a dictionary from label
    index to a threshold or [None]. *)
Record LabelColumns : Type := mk_LabelColumns {
  label_names : list string;
  label_thresholds : gmap nat (option float)
}.

(** The prediction dictionary [{'labels': [...], 'probabilities': [...]}]. *)
Record Predictions : Type := mk_Predictions {
  labels : list string;
  probabilities : list float
}.

(** The comment the bot posts; its wording is fixed by the template, the
    record keeps what is filled in. *)
Inductive comment : Type :=
  | Applying (label_names : list string) (confidence : list float)
             (app_url repo_owner repo_name : string)
  | NotConfident (app_url repo_owner repo_name : string).

Inductive event : Type :=
  | LogInfo (msg : string)
  | LogWarning (msg : string)
  | LogError (msg : string)
  | LogException (e : exn)
  | LogPrediction (repo_owner repo_name : string) (issue_num : Z)
                  (labels : list string)
  | Download (bucket gcs_path local_path : string)
  | Post (url title body : string)
  | AddLabels (label_names : list string)
  | CreateComment (c : comment).

(** The collaborators of the worker (GitHub, Cloud Storage, the embedding
    service, the YAML files) and the builtin [int]. The classifier is not
    among them: the worker builds it from [MLPWrapper] of mlp.py. *)
Record Env : Type := mk_Env {
  (** [RepoConfig(repo_owner, repo_name)] *)
  repo_config : string -> string -> result RepoConfig;
  download_file_from_gcs : string -> string -> string -> result unit;
  (** [get_issue_text(owner, repo, num, idx=None)] *)
  get_issue_text : string -> string -> string -> result IssueText;
  (** [requests.post(url, headers, json)]; the Token header, a salted hash
      of the API key, is left out *)
  requests_post : string -> IssueText -> result Response;
  (** [yaml.safe_load] of the labels file *)
  load_labels_file : string -> result LabelColumns;
  (** [get_yaml(owner, repo)]: the repository's bot configuration, if any *)
  get_yaml : string -> string -> result (option (gmap string (list string)));
  (** [get_issue_handle(...)] and the two calls made on the handle *)
  get_issue_handle : string -> string -> string -> string -> result unit;
  issue_add_labels : list string -> result unit;
  issue_create_comment : comment -> result unit;
  (** [int(s)] *)
  py_int : string -> result Z
}.

Section methods.
Context (env : Env).

(** [load_yaml]: installs [self.config]. *)
Definition load_yaml (self : Worker) (repo_owner repo_name : string)
  : io event Worker :=
  c ← lift (repo_config env repo_owner repo_name);
  mret (mk_Worker (embedding_api_endpoint self) (app_url self) (Some c)).

Definition get_issue_embedding (self : Worker)
    (repo_owner repo_name issue_num : string)
  : io event (option (list Np.f4)) :=
  issue_text ← lift (get_issue_text env repo_owner repo_name issue_num);
  _ ← emit (Post (embedding_api_endpoint self)
                 (title issue_text) (body issue_text));
  r ← lift (requests_post env (embedding_api_endpoint self) issue_text);
  if negb (Z.eqb (status_code r) 200) then
    _ ← emit (LogWarning ("Status code is " +:+ pretty (status_code r)
                          +:+ " not 200: can not retrieve the embedding"));
    mret None
  else
    embeddings ← lift (Np.frombuffer_f4 (content r));
    mret (Some (take 1600 embeddings)).

Definition download_model_from_gcs (self : Worker) : io event unit :=
  c ← lift (get_config self);
  _ ← emit (Download (model_bucket_name c) (model_gcs_path c)
                     (model_local_path c));
  _ ← lift (download_file_from_gcs env (model_bucket_name c)
              (model_gcs_path c) (model_local_path c));
  _ ← emit (Download (model_bucket_name c) (labels_gcs_path c)
                     (labels_local_path c));
  lift (download_file_from_gcs env (model_bucket_name c)
          (labels_gcs_path c) (labels_local_path c)).

Definition load_label_columns (self : Worker) : io event LabelColumns :=
  c ← lift (get_config self);
  lift (load_labels_file env (labels_local_path c)).

(** [predict_issue_probability]. With an embedding at hand the worker
    calls [MLPWrapper(clf=None, model_file=self.config.model_local_path,
    load_from_model=True)] and then [predict_probabilities] on the
    wrapper; [MLPWrapper] is the class of mlp.py, which has no parameter
    [load_from_model] and no method [predict_probabilities]. *)
Definition predict_issue_probability (self : Worker)
    (repo_owner repo_name issue_num : string)
  : io event (list float * option (list Np.f4)) :=
  issue_embedding ← get_issue_embedding self repo_owner repo_name issue_num;
  match issue_embedding with
  | None => mret ([], None)
  | Some emb =>
      c ← lift (get_config self);
      _ ← lift (Mlp.construct ["clf"; "model_file"; "load_from_model"] false);
      raise (OtherException "AttributeError")
            "'MLPWrapper' object has no attribute 'predict_probabilities'"
  end.

(** One round of the loop of [predict_labels], at index [i] where the
    probability is [p]. *)
Definition check_threshold (cols : LabelColumns) (i : nat) (p : float)
    (predictions : Predictions) : result Predictions :=
  match label_thresholds cols !! i with
  | None => Raise (mk_exn KeyError (pretty i))
  | Some threshold =>
      if match threshold with
         | None => false
         | Some t => float_truthy t && float_ge p t
         end
      then match label_names cols !! i with
           | None => Raise (mk_exn IndexError "list index out of range")
           | Some name =>
               Ok (mk_Predictions (labels predictions ++ [name])
                                  (probabilities predictions ++ [p]))
           end
      else Ok predictions
  end.

(** The loop [for i in range(len(label_probabilities))], started at index
    [i] with the probabilities from [i] on. *)
Fixpoint check_thresholds (cols : LabelColumns) (i : nat)
    (label_probabilities : list float) (predictions : Predictions)
  : result Predictions :=
  match label_probabilities with
  | [] => Ok predictions
  | p :: rest =>
      predictions' ← check_threshold cols i p predictions;
      check_thresholds cols (S i) rest predictions'
  end.

Definition predict_labels (self : Worker)
    (repo_owner repo_name issue_num : string)
  : io event (Predictions * option (list Np.f4)) :=
  _ ← emit (LogInfo ("Predicting labels for the issue #" +:+ issue_num
                     +:+ " from " +:+ repo_owner +:+ "/" +:+ repo_name));
  '(label_probabilities, issue_embedding) ←
     predict_issue_probability self repo_owner repo_name issue_num;
  label_columns ← load_label_columns self;
  predictions ← lift (check_thresholds label_columns 0 label_probabilities
                                       (mk_Predictions [] []));
  mret (predictions, issue_embedding).

(** The loop of [filter_specified_labels] over
    [zip(predictions['labels'], predictions['probabilities'])]. *)
Fixpoint select_specified (predicted_labels : list string)
    (pairs : list (string * float)) : list string * list float :=
  match pairs with
  | [] => ([], [])
  | (name, proba) :: rest =>
      let '(names, probas) := select_specified predicted_labels rest in
      if bool_decide (name ∈ predicted_labels)
      then (name :: names, proba :: probas)
      else (names, probas)
  end.

Definition filter_specified_labels (repo_owner repo_name : string)
    (predictions : Predictions) : io event (list string * list float) :=
  yaml ← lift (get_yaml env repo_owner repo_name);
  match yaml ≫= (fun y => y !! "predicted-labels") with
  | Some predicted_labels =>
      mret (select_specified predicted_labels
              (zip (labels predictions) (probabilities predictions)))
  | None =>
      _ ← emit (LogWarning ("YAML file does not contain `predicted-labels`, "
                +:+ "bot will predict all labels with enough confidence"));
      mret (labels predictions, probabilities predictions)
  end.

(** [add_labels_to_issue]; without predicted labels the probabilities are
    never read. *)
Definition add_labels_to_issue (self : Worker)
    (installation_id repo_owner repo_name issue_num : string)
    (predictions : Predictions) : io event unit :=
  '(names, probas) ←
     match labels predictions with
     | _ :: _ => filter_specified_labels repo_owner repo_name predictions
     | [] => mret ([], [])
     end;
  _ ← lift (get_issue_handle env installation_id repo_owner repo_name
                             issue_num);
  message ←
    match names with
    | _ :: _ =>
        _ ← emit (AddLabels names);
        _ ← lift (issue_add_labels env names);
        _ ← emit (LogInfo ("Add `" +:+ join "`, `" names
                           +:+ "` to the issue # " +:+ issue_num));
        mret (Applying names probas (app_url self) repo_owner repo_name)
    | [] =>
        _ ← emit (LogWarning ("Not confident enough to label this issue: # "
                              +:+ issue_num));
        mret (NotConfident (app_url self) repo_owner repo_name)
    end;
  _ ← emit (CreateComment message);
  lift (issue_create_comment env message).

(** A queue message: its attributes. *)
Record Message : Type := mk_Message { attributes : gmap string string }.

(** [message.attributes[k]]: the attributes of a Pub/Sub message are a
    protobuf map from strings to strings, which gives the empty string for
    a key it does not hold and raises nothing. *)
Definition attribute (message : Message) (k : string) : string :=
  default EmptyString (attributes message !! k).

(** What the callback does: effects of the worker, and acknowledgments of
    the message. The methods of the worker are never handed the message, so
    that [message.ack()] is out of their reach. *)
Inductive callback_event : Type :=
  | Effect (e : event)
  | Ack.

Definition effects {A} (m : io event A) : io callback_event A :=
  (Effect <$> m.1, m.2).

(** [try: body except Exception as e: handler(e)] *)
Definition try_except {E A} (body : io E A) (handler : exn -> io E A)
  : io E A :=
  match body with
  | (t, Raise e) =>
      if is_Exception (exn_class e)
      then let '(t', r) := handler e in (t ++ t', r)
      else body
  | _ => body
  end.

Definition class_name (c : exc_class) : string :=
  match c with
  | KeyError => "KeyError"
  | ValueError => "ValueError"
  | TypeError => "TypeError"
  | IndexError => "IndexError"
  | OtherException name => name
  | SystemExit => "SystemExit"
  | KeyboardInterrupt => "KeyboardInterrupt"
  | GeneratorExit => "GeneratorExit"
  end.

(** The statements of the callback between [try:] and [except]. *)
Definition processing (self : Worker)
    (installation_id repo_owner repo_name issue_num : string)
  : io event unit :=
  self ← load_yaml self repo_owner repo_name;
  _ ← download_model_from_gcs self;
  '(predictions, issue_embedding) ←
     predict_labels self repo_owner repo_name issue_num;
  _ ← add_labels_to_issue self installation_id repo_owner repo_name
                          issue_num predictions;
  n ← lift (py_int env issue_num);
  emit (LogPrediction repo_owner repo_name n (labels predictions)).

(** The consumer callback of [subscribe]. *)
Definition callback (self : Worker) (message : Message)
  : io callback_event unit :=
  let installation_id := attribute message "installation_id" in
  let repo_owner := attribute message "repo_owner" in
  let repo_name := attribute message "repo_name" in
  let issue_num := attribute message "issue_num" in
  _ ← emit (Effect (LogInfo ("Receive issue #" +:+ issue_num +:+ " from "
                             +:+ repo_owner +:+ "/" +:+ repo_name)));
  _ ← try_except
        (effects (processing self installation_id repo_owner repo_name
                             issue_num))
        (fun e =>
           effects (
             _ ← emit (LogError ("Addressing issue #" +:+ issue_num
                                 +:+ " from " +:+ repo_owner +:+ "/"
                                 +:+ repo_name +:+ " causes an error"));
             _ ← emit (LogError ("Error type: <class '"
                                 +:+ class_name (exn_class e) +:+ "'>"));
             emit (LogException e)));
  emit Ack.

End methods.

(** Number of [message.ack()] calls in a trace. *)
Definition is_ack (e : callback_event) : bool :=
  match e with Ack => true | Effect _ => false end.

Definition ack_count (t : list callback_event) : nat :=
  length (List.filter is_ack t).

End Worker.

(** * Notions used to state the properties *)

Module Calibration.
Import Py Mlp.

(** A point of the precision-recall curve: (precision, recall, threshold). *)
Abbreviation candidate := (float * float * float)%type.

Definition prec_of (c : candidate) : float := c.1.1.
Definition reca_of (c : candidate) : float := c.1.2.
Definition thre_of (c : candidate) : float := c.2.

(** The candidate meets both floors of the wrapper. *)
Definition meets_floors (self : MLPWrapper) (c : candidate) : bool :=
  float_ge (prec_of c) (precision_threshold self)
  && float_ge (reca_of c) (recall_threshold self).

(** The candidates the calibrator sweeps for [label]. *)
Definition candidates (prc : curve_fn)
    (y_test : list (list bool)) (y_pred : list (list float)) (label : nat)
  : result (list candidate) :=
  y_true ← Np.column label y_test;
  y_score ← Np.column label y_pred;
  '(precision, recall, threshold) ← prc y_true y_score;
  Ok (zip3 (Np.drop_last precision) (Np.drop_last recall) threshold).

(** [a == b] on floats. *)
Definition float_eq (a b : float) : bool := float_ge a b && float_ge b a.

(** The rule as the specification words it: the kept candidate meets the
    floors, no candidate that meets them has a higher precision, and among
    the candidates that meet them with the same precision the kept one is
    met first when the thresholds are visited from the highest down, that
    is, none of them has a higher threshold. *)
Definition first_by_decreasing_threshold (self : MLPWrapper)
    (cands : list candidate) (b : best) : Prop :=
  forall t, best_threshold b = Some t ->
    (best_precision b, best_recall b, t) ∈ cands /\
    meets_floors self (best_precision b, best_recall b, t) = true /\
    forall c, c ∈ cands -> meets_floors self c = true ->
      float_ge (best_precision b) (prec_of c) = true /\
      (float_eq (prec_of c) (best_precision b) = true ->
       float_ge t (thre_of c) = true).

(** The thresholds grow along the candidates, as scikit-learn returns
    them. *)
Definition increasing_thresholds (cands : list candidate) : Prop :=
  forall i j ci cj, cands !! i = Some ci -> cands !! j = Some cj ->
    (i < j)%nat -> float_gt (thre_of cj) (thre_of ci) = true.

(** The first candidate of maximal precision, in the order of the curve
    arrays; with increasing thresholds it is the one of lowest threshold
    among those that tie. *)
Definition first_of_maximal_precision (self : MLPWrapper)
    (cands : list candidate) (p r t : float) : Prop :=
  exists i,
    cands !! i = Some (p, r, t) /\
    meets_floors self (p, r, t) = true /\
    (forall j c, cands !! j = Some c -> meets_floors self c = true ->
       float_ge p (prec_of c) = true /\
       ((j < i)%nat -> float_gt p (prec_of c) = true)) /\
    (increasing_thresholds cands ->
     forall j c, cands !! j = Some c -> meets_floors self c = true ->
       float_eq (prec_of c) p = true ->
       j = i \/ float_gt (thre_of c) t = true).

(** The state of the sweep after the candidates [cands]. *)
Definition swept (self : MLPWrapper) (cands : list candidate) (b : best)
  : Prop :=
  (exists q, best_precision b = Fin q /\ 0 ≤ q) /\
  match best_threshold b with
  | None =>
      b = best_init /\
      forall c, c ∈ cands -> meets_floors self c = true ->
        float_gt (prec_of c) (Fin 0) = false
  | Some t =>
      exists i,
        cands !! i = Some (best_precision b, best_recall b, t) /\
        meets_floors self (best_precision b, best_recall b, t) = true /\
        float_gt (best_precision b) (Fin 0) = true /\
        forall j c, cands !! j = Some c -> meets_floors self c = true ->
          float_ge (best_precision b) (prec_of c) = true /\
          ((j < i)%nat -> float_gt (best_precision b) (prec_of c) = true)
  end.

(** The tables after the outer loop has run over [labels]. *)
Definition calibrated (prc : curve_fn) y_test y_pred
    (self self' : MLPWrapper) (label : nat) : Prop :=
  exists cands,
    candidates prc y_test y_pred label = Ok cands /\
    let b := foldl (sweep_step self) best_init cands in
    precisions self' !! label = Some (best_precision b) /\
    probability_thresholds self' !! label = Some (best_threshold b) /\
    recalls self' !! label = Some (best_recall b).

Definition untouched (self self' : MLPWrapper) (label : nat) : Prop :=
  precisions self' !! label = precisions self !! label /\
  probability_thresholds self' !! label
  = probability_thresholds self !! label /\
  recalls self' !! label = recalls self !! label.

(** Samples sorted by decreasing score. *)
Definition desc (l : list Sklearn.sample) : Prop :=
  StronglySorted (fun a b : Sklearn.sample => b.1 ≤ a.1) l.

End Calibration.

Module Routing.
Import Py Predictor.

Definition repo_key (org repo : string) : string :=
  org +:+ "/" +:+ repo +:+ "_combined".

Definition org_key (org : string) : string := org +:+ "_combined".

Definition registered (models : gmap string Model) (key : string) : bool :=
  bool_decide (is_Some (models !! key)).

(** The resolution order as the specification words it. *)
Definition resolution_order (models : gmap string Model) (org repo : string)
  : string :=
  if registered models (repo_key org repo) then repo_key org repo
  else if registered models (org_key org) then org_key org
  else "universal".

(** The string contains a slash. *)
Fixpoint has_slash (s : string) : bool :=
  match s with
  | EmptyString => false
  | String c rest => if Ascii.eqb c "/"%char then true else has_slash rest
  end.

(** Some model was invoked in the trace. *)
Definition invokes_model (t : list event) : bool :=
  existsb (fun e => match e with
                    | ModelInvoked _ _ _ _ _ => true
                    | _ => false
                    end) t.

End Routing.

Module Labelling.
Import Py Worker.

(** The test of the loop of [predict_labels] at index [i]. *)
Definition keeps (cols : LabelColumns) (i : nat) (p : float) : bool :=
  match label_thresholds cols !! i with
  | Some (Some t) => float_truthy t && float_ge p t
  | _ => false
  end.

(** The test as the specification words it: the entry is present and the
    probability meets it. *)
Definition meets_threshold (cols : LabelColumns) (i : nat) (p : float)
  : bool :=
  match label_thresholds cols !! i with
  | Some (Some t) => float_ge p t
  | _ => false
  end.

(** The positions, from [i] on, that pass the test, with their
    probability. *)
Fixpoint selected (cols : LabelColumns) (i : nat) (probs : list float)
  : list (nat * float) :=
  match probs with
  | [] => []
  | p :: rest =>
      if keeps cols i p then (i, p) :: selected cols (S i) rest
      else selected cols (S i) rest
  end.

(** The binary32 pattern at position [i] of a buffer. *)
Definition word_at (bs : list Byte.byte) (i : nat) : option Np.f4 :=
  b0 ← bs !! (4 * i)%nat;
  b1 ← bs !! (4 * i + 1)%nat;
  b2 ← bs !! (4 * i + 2)%nat;
  b3 ← bs !! (4 * i + 3)%nat;
  Some (Z.lor (Np.byte_val b0)
          (Z.lor (Z.shiftl (Np.byte_val b1) 8)
             (Z.lor (Z.shiftl (Np.byte_val b2) 16)
                (Z.shiftl (Np.byte_val b3) 24)))).

(** The computation raises nothing but exceptions that derive from
    [Exception]. *)
Definition raises_only_Exception {E A} (m : io E A) : Prop :=
  forall e, m.2 = Raise e -> is_Exception (exn_class e) = true.

(** The configuration of kubeflow/examples. *)
Definition sample_config : RepoConfig :=
  mk_RepoConfig "repo-models" "kubeflow/examples.model" "examples.dpkl"
                "kubeflow/examples.labels" "examples.labels.dpkl".

(** A deployment to run the worker in: building the repository
    configuration gives [cfg], the embedding service answers [response],
    the labels file holds [cols], and every other collaborator succeeds. *)
Definition sample_env (cfg : result RepoConfig) (response : Response)
    (cols : LabelColumns) : Env :=
  mk_Env (fun _ _ => cfg)
         (fun _ _ _ => Ok tt)
         (fun _ _ _ => Ok (mk_IssueText "New issue" "It fails."))
         (fun _ _ => Ok response)
         (fun _ => Ok cols)
         (fun _ _ => Ok None)
         (fun _ _ _ _ => Ok tt)
         (fun _ => Ok tt)
         (fun _ => Ok tt)
         (fun _ => Ok 1%Z).

Definition sample_worker : Worker :=
  mk_Worker "https://embeddings.gh-issue-labeler.com/text"
            "https://mlbot.net/" (Some sample_config).

Definition sample_message : Message :=
  mk_Message (list_to_map [("installation_id", "10000");
                           ("repo_owner", "kubeflow");
                           ("repo_name", "examples");
                           ("issue_num", "1")]).

End Labelling.

(** * More of the code *)

(** ** mlp.py: saving and loading the classifier *)

Module MlpStore.
Import Py.

Section store.
(** The classifier object held in [self.clf]. *)
Context {Clf : Type}.

(** The fields of [MLPWrapper] that [save_model] and [load_model] read and
    write. *)
Record Stored : Type := mk_Stored { clf : Clf; model_file : string }.

(** The files that can be read, by path. *)
Abbreviation disk := (gmap string (list Byte.byte)).

(** What the wrapper does not decide: whether the operating system lets a
    path be opened for writing (the error, if not), the bytes [dill] writes
    for a classifier and whether it raises while writing, and what [dill]
    reads back from bytes. *)
Record Env : Type := mk_Env {
  open_wb : string -> option exn;
  dump : Clf -> list Byte.byte * result unit;
  load : list Byte.byte -> result Clf
}.

(** [if model_file: self.model_file = model_file] *)
Definition retarget (self : Stored) (model_file_arg : option string) : Stored :=
  match model_file_arg with
  | Some path => if str_truthy path then mk_Stored (clf self) path else self
  | None => self
  end.

(** [save_model(model_file=None)]: the wrapper and the disk afterwards, and
    the outcome. Opening for writing empties the file before [dill] writes
    to it. *)
Definition save_model (env : Env) (self : Stored)
    (model_file_arg : option string) (d : disk) : Stored * disk * result unit :=
  let self := retarget self model_file_arg in
  match open_wb env (model_file self) with
  | Some e => (self, d, Raise e)
  | None =>
      let '(written, outcome) := dump env (clf self) in
      (self, <[model_file self := written]> d, outcome)
  end.

(** [load_model(model_file=None)] *)
Definition load_model (env : Env) (self : Stored)
    (model_file_arg : option string) (d : disk) : Stored * disk * result unit :=
  let self := retarget self model_file_arg in
  match d !! model_file self with
  | None =>
      (self, d, Raise (mk_exn (OtherException "FileNotFoundError")
                              (model_file self)))
  | Some bytes =>
      match load env bytes with
      | Ok c => (mk_Stored c (model_file self), d, Ok tt)
      | Raise e => (self, d, Raise e)
      end
  end.

End store.
Arguments Stored : clear implicits.
Arguments Env : clear implicits.

End MlpStore.

(** ** universal_kind_label_model.py *)

Module UniversalModel.
Import Py.

(** A dictionary in insertion order, as [dict] keeps it. *)
Abbreviation odict V := (list (string * V)).

(** [d[k] = v]: an existing key keeps its place. *)
Fixpoint odict_set {V} (d : odict V) (k : string) (v : V) : odict V :=
  match d with
  | [] => [(k, v)]
  | (k', v') :: rest =>
      if bool_decide (k' = k) then (k, v) :: rest
      else (k', v') :: odict_set rest k v
  end.

(** [dict(pairs)] *)
Definition odict_of {V} (pairs : list (string * V)) : odict V :=
  foldl (fun d kv => odict_set d kv.1 kv.2) [] pairs.

(** [d.get(k)] *)
Fixpoint odict_get {V} (d : odict V) (k : string) : option V :=
  match d with
  | [] => None
  | (k', v) :: rest => if bool_decide (k' = k) then Some v else odict_get rest k
  end.

(** [a < b] on floats. *)
Definition float_lt (a b : float) : bool := float_gt b a.

(** The model: its class names and [self._prediction_threshold], a
    [defaultdict] whose missing keys are created with 0.52 when they are
    looked up. *)
Record UniversalKindLabelModel : Type := mk_UniversalKindLabelModel {
  class_names : list string;
  _prediction_threshold : gmap string float
}.

(** [__init__(class_names=['bug', 'feature', 'question'])], once the
    preprocessors and the network have been downloaded. *)
Definition init (class_names : list string) : UniversalKindLabelModel :=
  mk_UniversalKindLabelModel class_names {["question" := decimal 60 100]}.

Definition default_class_names : list string := ["bug"; "feature"; "question"].

(** [self._prediction_threshold[label]]: the value, and the dictionary
    after the lookup. *)
Definition threshold_of (thresholds : gmap string float) (label : string)
  : float * gmap string float :=
  match thresholds !! label with
  | Some t => (t, thresholds)
  | None => (decimal 52 100, <[label := decimal 52 100]> thresholds)
  end.

(** What the log record of a prediction carries besides its message. *)
Inductive log_field : Type :=
  | Predictions (raw : odict float)
  | Context (v : value)
  | Labels (labels : list string).

Inductive event : Type :=
  | LogInfo (msg : string) (extra : odict log_field).

(** What the model depends on in [logging]: whether the root logger is
    enabled for INFO (it is not until the program configures it so), and
    the attributes a [LogRecord] has before the [extra] dictionary is
    merged into it (name, msg, args, levelname, ...; the list depends on
    the release of Python). *)
Record Logging : Type := mk_Logging {
  info_enabled : bool;
  record_attributes : list string
}.

(** The keys [Logger.makeRecord] refuses in [extra]. *)
Definition reserved (lg : Logging) (k : string) : bool :=
  bool_decide (k ∈ "message" :: "asctime" :: record_attributes lg).

(** The key for which [Logger.makeRecord] raises: the first reserved key
    of [extra], in the order of the dictionary. *)
Definition overwritten {V} (lg : Logging) (extra : odict V) : option string :=
  head (filter (fun k => reserved lg k = true) extra.*1).

(** [logging.info(msg, extra=extra)]: nothing happens when the logger is
    not enabled for INFO; otherwise the record is made, which raises
    [KeyError] on a reserved key, and handed to the handlers. *)
Definition logging_info (lg : Logging) (msg : string)
    (extra : odict log_field) : io event unit :=
  if info_enabled lg then
    match overwritten lg extra with
    | Some k =>
        raise KeyError ("Attempt to overwrite '" +:+ k +:+ "' in LogRecord")
    | None => emit (LogInfo msg extra)
    end
  else mret tt.

(** The loop over [raw.items()] that fills [results]. *)
Fixpoint keep_confident (thresholds : gmap string float)
    (items : list (string * float)) (results : odict float)
  : odict float * gmap string float :=
  match items with
  | [] => (results, thresholds)
  | (label, p) :: rest =>
      let '(t, thresholds') := threshold_of thresholds label in
      if float_lt p t then keep_confident thresholds' rest results
      else keep_confident thresholds' rest (odict_set results label p)
  end.

(** [predict_issue_labels(org, repo, title, text, context=None)]. [probs]
    is what the network returns for the title and the text (preprocessing,
    loading the network and running it are left to it); [context] holds
    the items of the context dictionary, if one is given. The result holds
    the model after the call; the model after a call that raises is not
    followed. *)
Definition predict_issue_labels (lg : Logging)
    (network : string -> list string -> result (list float))
    (self : UniversalKindLabelModel) (org repo title : string)
    (text : list string) (context : option (odict value))
  : io event (odict float * UniversalKindLabelModel) :=
  let context := match context with
                 | Some ((_ :: _) as c) => c
                 | _ => []
                 end in
  probs ← lift (network title text);
  let raw := odict_of (zip (class_names self) probs) in
  let extra :=
    foldl (fun d kv => odict_set d kv.1 (Context kv.2))
          [("predictions", Predictions raw)] context in
  let '(results, thresholds) :=
    keep_confident (_prediction_threshold self) raw [] in
  let extra := odict_set extra "labels" (Labels results.*1) in
  _ ← logging_info lg "Universal model predictions." extra;
  mret (results, mk_UniversalKindLabelModel (class_names self) thresholds).

End UniversalModel.

(** * Notions used to state the further properties *)

Module Coverage.
Import Py.

(** The path [save_model] and [load_model] work on. *)
Definition target {Clf} (self : MlpStore.Stored Clf)
    (model_file_arg : option string) : string :=
  MlpStore.model_file (MlpStore.retarget self model_file_arg).

(** The threshold a lookup in the dictionary gives for [label]. *)
Definition threshold (thresholds : gmap string float) (label : string)
  : float :=
  (UniversalModel.threshold_of thresholds label).1.

(** 0.60 for the label question, 0.52 for every other label. *)
Definition standard_threshold (label : string) : float :=
  if bool_decide (label = "question") then decimal 60 100 else decimal 52 100.

(** The thresholds of the model are the standard ones. *)
Definition standard (self : UniversalModel.UniversalKindLabelModel) : Prop :=
  forall label,
    threshold (UniversalModel._prediction_threshold self) label
    = standard_threshold label.

(** [logging.info] takes the record of a prediction made with [context]:
    the logger is not enabled for INFO, or none of the keys of the record's
    [extra] ("predictions", "labels" and the keys of the context) is
    reserved. *)
Definition loggable (lg : UniversalModel.Logging)
    (context : option (list (string * value))) : Prop :=
  UniversalModel.info_enabled lg = false \/
  forall k, k ∈ "predictions" :: "labels" :: (default [] context).*1 ->
            UniversalModel.reserved lg k = false.

(** The dictionary the model hands to [logging.info] as [extra]: the
    probabilities of the network, then the items of the context, then the
    labels it returns. *)
Definition record_extra (raw : list (string * float))
    (context : list (string * value)) (labels : list string)
  : list (string * UniversalModel.log_field) :=
  UniversalModel.odict_set
    (foldl (fun d kv =>
              UniversalModel.odict_set d kv.1 (UniversalModel.Context kv.2))
           [("predictions", UniversalModel.Predictions raw)] context)
    "labels" (UniversalModel.Labels labels).

(** A configured logger of CPython 3.8: INFO is enabled, and a
    [LogRecord] has these attributes. *)
Definition cpython_logging : UniversalModel.Logging :=
  UniversalModel.mk_Logging true
    ["name"; "msg"; "args"; "levelname"; "levelno"; "pathname"; "filename";
     "module"; "exc_info"; "exc_text"; "stack_info"; "lineno"; "funcName";
     "created"; "msecs"; "relativeCreated"; "thread"; "threadName";
     "processName"; "process"].

(** The probability is not below the threshold of its label. *)
Definition confident (item : string * float) : Prop :=
  UniversalModel.float_lt item.2 (standard_threshold item.1) = false.

#[export] Instance confident_dec item : Decision (confident item).
Proof. unfold confident. apply _. Defined.

End Coverage.

(** Notions used to state the further properties of the worker. *)

Module Consumption.
Import Py Worker Labelling.

(** Kinds of events. *)
Definition is_comment (e : event) : bool :=
  match e with CreateComment _ => true | _ => false end.

Definition adds_labels (e : event) : bool :=
  match e with AddLabels _ => true | _ => false end.

Definition writes_to_github (e : event) : bool :=
  is_comment e || adds_labels e.

Definition is_performance_log (e : event) : bool :=
  match e with LogPrediction _ _ _ _ => true | _ => false end.

(** No event of the kind [P] occurs in the computation. *)
Definition quiet {E A} (P : E -> bool) (m : io E A) : Prop :=
  existsb P m.1 = false.

(** The labels the repository allows the bot to apply, if its YAML file
    says so. *)
Definition allow_list (yaml : option (gmap string (list string)))
  : option (list string) :=
  yaml ≫= (fun y => y !! "predicted-labels").

(** The worker once [load_yaml] has installed [cfg]. *)
Definition configured (self : Worker) (cfg : RepoConfig) : Worker :=
  mk_Worker (embedding_api_endpoint self) (app_url self) (Some cfg).

End Consumption.

(** * Properties *)

(** ** The curve of scikit-learn *)

Module SklearnFacts.
Import Py Sklearn Calibration.

Lemma elem_of_insert_desc s l x : x ∈ insert_desc s l <-> x = s \/ x ∈ l.
Proof.
  induction l as [|y l IH]; simpl.
  - rewrite list_elem_of_singleton, elem_of_nil. tauto.
  - case_bool_decide; rewrite !elem_of_cons; [done |].
    rewrite IH. tauto.
Qed.

Lemma insert_desc_sorted s l : desc l -> desc (insert_desc s l).
Proof.
  unfold desc. induction l as [|x l IH]; intros H; simpl.
  - repeat constructor.
  - inversion H as [|? ? Hl Hx]; subst. case_bool_decide as Hlt.
    + constructor; [exact H |]. constructor; [by apply Qclt_le_weak |].
      eapply Forall_impl; [exact Hx |]. intros y Hy. simpl in Hy.
      apply Qclt_le_weak. eapply Qcle_lt_trans; eauto.
    + constructor; [by apply IH |]. apply Forall_forall. intros y Hy.
      apply elem_of_insert_desc in Hy as [-> | Hy].
      * by apply Qcnot_lt_le.
      * rewrite Forall_forall in Hx. by apply Hx.
Qed.

Lemma sort_desc_sorted l : desc (sort_desc l).
Proof.
  induction l as [|s l IH]; simpl; [constructor |].
  by apply insert_desc_sorted.
Qed.

Lemma clf_curve_cons tps fps score y rest :
  clf_curve tps fps ((score, y) :: rest) =
  let tps' := if y then S tps else tps in
  let fps' := if y then fps else S fps in
  match rest with
  | (next, _) :: _ =>
      if bool_decide (next = score) then clf_curve tps' fps' rest
      else (tps', fps', score) :: clf_curve tps' fps' rest
  | [] => [(tps', fps', score)]
  end.
Proof. reflexivity. Qed.

(** Every threshold of the curve is the score of a sample. *)
Lemma clf_curve_scores l : forall tps fps pt,
  pt ∈ clf_curve tps fps l -> exists y, (pt.2, y) ∈ l.
Proof.
  induction l as [|[s y] rest IH]; intros tps fps pt H.
  - inversion H.
  - rewrite clf_curve_cons in H. cbv zeta in H.
    destruct rest as [|[n y'] rest'].
    + apply list_elem_of_singleton in H. subst pt. exists y. left.
    + case_bool_decide.
      * destruct (IH _ _ _ H) as [y0 Hy0]. exists y0. by right.
      * apply elem_of_cons in H as [-> | H]; [exists y; left |].
        destruct (IH _ _ _ H) as [y0 Hy0]. exists y0. by right.
Qed.

(** On samples sorted by decreasing score the thresholds of the curve
    decrease strictly. *)
Lemma clf_curve_decreasing l : forall tps fps,
  desc l ->
  StronglySorted (fun p q : nat * nat * Qc => q.2 < p.2) (clf_curve tps fps l).
Proof.
  induction l as [|[s y] rest IH]; intros tps fps H; [constructor |].
  rewrite clf_curve_cons. cbv zeta.
  inversion H as [|? ? Hrest Hs]; subst.
  destruct rest as [|[n y'] rest']; [repeat constructor |].
  case_bool_decide as Hn; [by apply IH |].
  constructor; [by apply IH |].
  apply Forall_forall. intros pt Hpt.
  destruct (clf_curve_scores _ _ _ _ Hpt) as [y0 Hy0].
  assert (Hle : pt.2 ≤ n).
  { apply elem_of_cons in Hy0 as [E | Hy0].
    - inversion E. apply Qcle_refl.
    - inversion Hrest as [|? ? _ Hn']; subst.
      rewrite Forall_forall in Hn'. apply (Hn' _ Hy0). }
  assert (Hns : n ≤ s).
  { rewrite Forall_forall in Hs. apply (Hs (n, y')). left. }
  eapply Qcle_lt_trans; [exact Hle |].
  apply Qcle_lt_or_eq in Hns as [? | E]; [done |].
  by exfalso.
Qed.

Lemma StronglySorted_lookup {A} (R : relation A) l i j x y :
  StronglySorted R l -> l !! i = Some x -> l !! j = Some y ->
  (i < j)%nat -> R x y.
Proof.
  intros H. revert i j. induction H as [|a l Hl IH Ha]; intros i j Hi Hj Hij.
  - by rewrite lookup_nil in Hi.
  - destruct j as [|j]; [lia |]. destruct i as [|i].
    + inversion Hi; subst. rewrite Forall_forall in Ha. apply Ha.
      eapply list_elem_of_lookup_2. exact Hj.
    + apply (IH i j); [done | done | lia].
Qed.

Lemma zip3_lookup_thre {A B C} (a : list A) (b : list B) (c : list C) :
  forall i x, zip3 a b c !! i = Some x -> c !! i = Some x.2.
Proof.
  revert b c. induction a as [|x0 a IH]; intros b c i x H.
  - by destruct b, c.
  - destruct b as [|y0 b], c as [|z0 c]; try done.
    destruct i as [|i]; simpl in *.
    + by inversion H.
    + by apply (IH b c).
Qed.

(** The candidates scikit-learn hands to the calibrator come with
    strictly increasing thresholds. *)
Lemma sklearn_thresholds_increase y_test y_pred label cands :
  candidates precision_recall_curve y_test y_pred label = Ok cands ->
  increasing_thresholds cands.
Proof.
  unfold candidates, precision_recall_curve.
  destruct (Np.column label y_test) as [y_true|]; [| discriminate].
  destruct (Np.column label y_pred) as [y_score|]; [| discriminate].
  cbn [mbind result_bind].
  destruct (mapM _ y_score) as [scores|]; [| discriminate].
  cbv zeta. cbn [mbind result_bind].
  set (pts := clf_curve 0 0 (sort_desc (zip scores y_true))).
  set (k := S (first_full _ pts)).
  intros H. inversion H as [E]. clear H E.
  intros i j ci cj Hi Hj Hij.
  apply zip3_lookup_thre in Hi, Hj.
  rewrite list_lookup_fmap in Hi, Hj.
  destruct (reverse (take k pts) !! i) as [[[tpi fpi] ti]|] eqn:Ei;
    [| discriminate].
  destruct (reverse (take k pts) !! j) as [[[tpj fpj] tj]|] eqn:Ej;
    [| discriminate].
  simpl in Hi, Hj. inversion Hi as [Hti]. inversion Hj as [Htj].
  unfold thre_of. rewrite <- Hti, <- Htj. simpl. apply bool_decide_eq_true.
  pose proof (lookup_lt_Some _ _ _ Ei) as Li.
  pose proof (lookup_lt_Some _ _ _ Ej) as Lj.
  rewrite length_reverse in Li, Lj.
  rewrite reverse_lookup in Ei, Ej by done.
  rewrite lookup_take_Some in Ei, Ej.
  destruct Ei as [Ei _], Ej as [Ej _].
  assert (Hdec : StronglySorted (fun p q : nat * nat * Qc => q.2 < p.2) pts)
    by apply clf_curve_decreasing, sort_desc_sorted.
  apply (StronglySorted_lookup _ _ _ _ _ _ Hdec Ej Ei). lia.
Qed.

End SklearnFacts.

(** ** Calibration (mlp.py) *)

Module CalibrationFacts.
Import Py Mlp Calibration.

Lemma float_ge_inv a b :
  float_ge a b = true -> exists x y, a = Fin x /\ b = Fin y /\ y ≤ x.
Proof.
  destruct a as [x|], b as [y|]; simpl; try discriminate.
  intros H. apply bool_decide_eq_true_1 in H. eauto.
Qed.

Lemma float_gt_inv a b :
  float_gt a b = true -> exists x y, a = Fin x /\ b = Fin y /\ y < x.
Proof.
  destruct a as [x|], b as [y|]; simpl; try discriminate.
  intros H. apply bool_decide_eq_true_1 in H. eauto.
Qed.

Lemma float_ge_Fin x y : float_ge (Fin x) (Fin y) = true <-> y ≤ x.
Proof. simpl. apply bool_decide_eq_true. Qed.

Lemma float_gt_Fin x y : float_gt (Fin x) (Fin y) = true <-> y < x.
Proof. simpl. apply bool_decide_eq_true. Qed.

Lemma float_gt_Fin_false x y : float_gt (Fin x) (Fin y) = false <-> x ≤ y.
Proof.
  simpl. rewrite bool_decide_eq_false. split.
  - apply Qcnot_lt_le.
  - apply Qcle_not_lt.
Qed.

Lemma meets_floors_inv self c :
  meets_floors self c = true ->
  exists p r, prec_of c = Fin p /\ reca_of c = Fin r /\
    float_ge (Fin p) (precision_threshold self) = true /\
    float_ge (Fin r) (recall_threshold self) = true.
Proof.
  unfold meets_floors. intros H. apply andb_true_iff in H as [Hp Hr].
  destruct (float_ge_inv _ _ Hp) as (p & ? & Ep & _ & _).
  destruct (float_ge_inv _ _ Hr) as (r & ? & Er & _ & _).
  exists p, r. rewrite <- Ep, <- Er. auto.
Qed.

Lemma swept_init self : swept self [] best_init.
Proof.
  split.
  - exists 0. split; [reflexivity | apply Qcle_refl].
  - simpl. split; [reflexivity |]. intros c Hc. inversion Hc.
Qed.

Lemma sweep_step_unfold self b c :
  sweep_step self b c =
  if meets_floors self c
  then if float_gt (prec_of c) (best_precision b)
       then mk_best (prec_of c) (reca_of c) (Some (thre_of c))
       else b
  else b.
Proof. destruct c as [[p r] t]. reflexivity. Qed.

Lemma float_gt_ge a b : float_gt a b = true -> float_ge a b = true.
Proof.
  intros H. destruct (float_gt_inv _ _ H) as (x & y & -> & -> & Hxy).
  by apply float_ge_Fin, Qclt_le_weak.
Qed.

Lemma lookup_snoc_inv {A} (l : list A) (x y : A) j :
  (l ++ [x]) !! j = Some y ->
  ((j < length l)%nat /\ l !! j = Some y) \/ (j = length l /\ y = x).
Proof.
  intros H. destruct (decide (j < length l)%nat) as [Hlt|Hge].
  - left. split; [done |]. by rewrite lookup_app_l in H.
  - right. rewrite lookup_app_r in H by lia.
    destruct (j - length l)%nat as [|k] eqn:E; simpl in H; [| done].
    split; [lia | congruence].
Qed.

(** A candidate that does not beat the best one leaves the state as it
    is. *)
Lemma swept_extend self cands b c :
  swept self cands b ->
  (meets_floors self c = true ->
   float_ge (best_precision b) (prec_of c) = true) ->
  swept self (cands ++ [c]) b.
Proof.
  intros [Hq Hb] Hc. split; [exact Hq |].
  destruct (best_threshold b) as [t|].
  - destruct Hb as (i & Hi & Hm & Hpos & Hall).
    exists i. split; [by apply lookup_app_l_Some |].
    split; [done |]. split; [done |].
    intros j c' Hj Hc'.
    apply lookup_snoc_inv in Hj as [[Hlt Hj] | [-> ->]].
    + exact (Hall j c' Hj Hc').
    + split; [by apply Hc |]. intros Hlt.
      apply lookup_lt_Some in Hi. lia.
  - destruct Hb as [-> Hall]. split; [done |].
    intros c' Hin Hc'. apply elem_of_app in Hin as [Hin|Hin]; [by apply Hall |].
    apply list_elem_of_singleton in Hin. subst c'.
    destruct (float_ge_inv _ _ (Hc Hc')) as (x & y & Ex & -> & Hxy).
    simpl in Ex. inversion Ex; subst x. by apply float_gt_Fin_false.
Qed.

(** A candidate that beats the best one takes its place. *)
Lemma swept_replace self cands b c :
  swept self cands b ->
  meets_floors self c = true ->
  float_gt (prec_of c) (best_precision b) = true ->
  swept self (cands ++ [c]) (mk_best (prec_of c) (reca_of c) (Some (thre_of c))).
Proof.
  intros [(q & Eq & Hq) Hb] Hc Hgt.
  destruct (float_gt_inv _ _ Hgt) as (p & q' & Ep & Eq' & Hqp).
  rewrite Eq in Eq'. inversion Eq'; subst q'.
  assert (Hbelow : forall j c', cands !! j = Some c' ->
            meets_floors self c' = true ->
            float_gt (prec_of c) (prec_of c') = true).
  { intros j c' Hj Hc'.
    destruct (meets_floors_inv _ _ Hc') as (p' & r' & Ep' & _).
    rewrite Ep, Ep'. apply float_gt_Fin.
    eapply Qcle_lt_trans; [| exact Hqp].
    destruct (best_threshold b) as [t|].
    - destruct Hb as (i & _ & _ & _ & Hall).
      destruct (Hall j c' Hj Hc') as [Hge _].
      rewrite Eq, Ep' in Hge. by apply float_ge_Fin in Hge.
    - destruct Hb as [-> Hall]. simpl in Eq. inversion Eq; subst q.
      apply list_elem_of_lookup_2 in Hj.
      specialize (Hall c' Hj Hc'). rewrite Ep' in Hall.
      by apply float_gt_Fin_false in Hall. }
  split; simpl.
  - exists p. split; [done |].
    apply Qclt_le_weak. eapply Qcle_lt_trans; eauto.
  - exists (length cands).
    split.
    { rewrite lookup_app_r, Nat.sub_diag by lia. by destruct c as [[? ?] ?]. }
    split; [by destruct c as [[? ?] ?] |].
    split; [rewrite Ep; apply float_gt_Fin; eapply Qcle_lt_trans; eauto |].
    intros j c' Hj Hc'.
    apply lookup_snoc_inv in Hj as [[Hlt Hj] | [-> ->]].
    + pose proof (Hbelow j c' Hj Hc') as Hgt'.
      split; [by apply float_gt_ge | done].
    + split; [rewrite Ep; apply float_ge_Fin, Qcle_refl | lia].
Qed.

Lemma swept_step self cands b c :
  swept self cands b -> swept self (cands ++ [c]) (sweep_step self b c).
Proof.
  intros Hs. rewrite sweep_step_unfold.
  destruct (meets_floors self c) eqn:Hc;
    [destruct (float_gt (prec_of c) (best_precision b)) eqn:Hgt |].
  - by apply (swept_replace self cands b).
  - apply swept_extend; [done |]. intros _.
    destruct Hs as [(q & Eq & _) _].
    destruct (meets_floors_inv _ _ Hc) as (p & r & Ep & _).
    rewrite Ep, Eq in Hgt |- *.
    by apply float_ge_Fin, float_gt_Fin_false.
  - apply swept_extend; [done |]. intros Hc'. congruence.
Qed.

Lemma swept_foldl self cands :
  swept self cands (foldl (sweep_step self) best_init cands).
Proof.
  induction cands as [|c cands IH] using rev_ind.
  - apply swept_init.
  - rewrite foldl_snoc. by apply swept_step.
Qed.

Lemma sweep_is_foldl self precision recall threshold :
  sweep self precision recall threshold =
  foldl (sweep_step self) best_init
        (zip3 (Np.drop_last precision) (Np.drop_last recall) threshold).
Proof. reflexivity. Qed.

Lemma foldl_sweep_step_floors self1 self2 b cands :
  precision_threshold self1 = precision_threshold self2 ->
  recall_threshold self1 = recall_threshold self2 ->
  foldl (sweep_step self1) b cands = foldl (sweep_step self2) b cands.
Proof.
  intros Hp Hr. revert b.
  induction cands as [|[[p r] t] cands IH]; intros b; [reflexivity |].
  simpl. rewrite Hp, Hr. apply IH.
Qed.

(** What one round of the outer loop writes. *)
Lemma calibrate_label_inv prc y_test y_pred self label self' :
  calibrate_label prc y_test y_pred self label = Ok self' ->
  exists cands,
    candidates prc y_test y_pred label = Ok cands /\
    let b := foldl (sweep_step self) best_init cands in
    self' = mk_MLPWrapper
              (precision_threshold self) (recall_threshold self)
              (<[label := best_precision b]> (precisions self))
              (<[label := best_threshold b]> (probability_thresholds self))
              (<[label := best_recall b]> (recalls self))
              (total_labels_count self).
Proof.
  unfold calibrate_label, candidates.
  destruct (Np.column label y_test) as [y_true|]; [| discriminate].
  destruct (Np.column label y_pred) as [y_score|]; [| discriminate].
  simpl. destruct (prc y_true y_score) as [[[pr rc] th]|]; [| discriminate].
  simpl. intros H. inversion H. eexists. split; reflexivity.
Qed.

Lemma for_labels_inv prc y_test y_pred labels : forall self self',
  for_labels prc y_test y_pred self labels = Ok self' ->
  precision_threshold self' = precision_threshold self /\
  recall_threshold self' = recall_threshold self /\
  total_labels_count self' = total_labels_count self /\
  forall label,
    (label ∈ labels -> calibrated prc y_test y_pred self self' label) /\
    (label ∉ labels -> untouched self self' label).
Proof.
  induction labels as [|l labels IH]; intros self self' H.
  - simpl in H. inversion H; subst self'.
    split; [done |]. split; [done |]. split; [done |].
    intros label. split; [intros Hin; inversion Hin | done].
  - simpl in H.
    destruct (calibrate_label prc y_test y_pred self l) as [self1|] eqn:H1;
      [| discriminate].
    simpl in H. destruct (IH _ _ H) as (Hp & Hr & Hn & Hall).
    destruct (calibrate_label_inv _ _ _ _ _ _ H1) as (cands & Hc & E1).
    assert (Hp1 : precision_threshold self1 = precision_threshold self)
      by (rewrite E1; reflexivity).
    assert (Hr1 : recall_threshold self1 = recall_threshold self)
      by (rewrite E1; reflexivity).
    split; [congruence |]. split; [congruence |].
    split; [rewrite Hn, E1; reflexivity |].
    intros label. split.
    + intros Hin. destruct (decide (label ∈ labels)) as [Hl|Hl].
      * destruct (proj1 (Hall label) Hl) as (cs & Hcs & Hb).
        exists cs. split; [done |].
        rewrite (foldl_sweep_step_floors self self1) by done. exact Hb.
      * assert (label = l) by (apply elem_of_cons in Hin as [?|?]; done).
        subst label. destruct (proj2 (Hall l) Hl) as (E2 & E3 & E4).
        exists cands. split; [done |].
        rewrite E2, E3, E4, E1. simpl.
        rewrite !lookup_insert_eq. auto.
    + intros Hnin. apply not_elem_of_cons in Hnin as [Hne Hnin].
      destruct (proj2 (Hall label) Hnin) as (E2 & E3 & E4).
      unfold untouched. rewrite E2, E3, E4, E1. simpl.
      rewrite !lookup_insert_ne by done. auto.
Qed.

(** The tables [find_probability_thresholds] leaves behind. *)
Lemma find_probability_thresholds_inv prc self y_test y_pred self' :
  find_probability_thresholds prc self y_test y_pred = Ok self' ->
  exists n,
    total_labels_count self' = Some n /\
    precision_threshold self' = precision_threshold self /\
    recall_threshold self' = recall_threshold self /\
    forall label,
      ((label < n)%nat -> calibrated prc y_test y_pred self self' label) /\
      ((n <= label)%nat -> probability_thresholds self' !! label = None).
Proof.
  unfold find_probability_thresholds.
  destruct y_test as [|row0 rows]; [discriminate |].
  intros H. apply for_labels_inv in H as (Hp & Hr & Hn & Hall).
  exists (length row0).
  split; [done |]. split; [done |]. split; [done |].
  intros label. split.
  - intros Hlt. destruct (proj1 (Hall label)) as (cs & Hcs & Hb).
    { apply elem_of_seq. lia. }
    exists cs. split; [done |].
    erewrite foldl_sweep_step_floors; [exact Hb | done | done].
  - intros Hge. destruct (proj2 (Hall label)) as (_ & E & _).
    { rewrite elem_of_seq. lia. }
    rewrite E. apply lookup_empty.
Qed.

(** C2. Whenever the calibrator chooses a threshold for a label, the
    precision and the recall it records for that label meet the precision
    floor and the recall floor, and the recorded triple is a point of the
    precision-recall curve of that label on the held-out partition. *)
Theorem chosen_threshold_meets_floors prc self y_test y_pred self' label t :
  find_probability_thresholds prc self y_test y_pred = Ok self' ->
  probability_thresholds self' !! label = Some (Some t) ->
  exists p r cands,
    precisions self' !! label = Some p /\
    recalls self' !! label = Some r /\
    float_ge p (precision_threshold self) = true /\
    float_ge r (recall_threshold self) = true /\
    candidates prc y_test y_pred label = Ok cands /\
    (p, r, t) ∈ cands.
Proof.
  intros H Ht.
  destruct (find_probability_thresholds_inv _ _ _ _ _ H)
    as (n & _ & _ & _ & Hall).
  destruct (decide (label < n)%nat) as [Hlt|Hge].
  - destruct (proj1 (Hall label) Hlt) as (cands & Hc & Hp & Hth & Hr).
    pose proof (swept_foldl self cands) as [_ Hs].
    rewrite Hth in Ht. inversion Ht as [Et]. rewrite Et in Hs.
    destruct Hs as (i & Hi & Hm & _).
    exists (best_precision (foldl (sweep_step self) best_init cands)),
           (best_recall (foldl (sweep_step self) best_init cands)), cands.
    unfold meets_floors in Hm. apply andb_true_iff in Hm as [Hm1 Hm2].
    repeat split; auto.
    eapply list_elem_of_lookup_2; eauto.
  - rewrite (proj2 (Hall label)) in Ht by lia. discriminate.
Qed.

(** C6. When no candidate of a label meets both floors, the entry of the
    threshold table for that label is [None]. *)
Theorem no_candidate_meets_floors_gives_None
    prc self y_test y_pred self' n label cands :
  find_probability_thresholds prc self y_test y_pred = Ok self' ->
  total_labels_count self' = Some n ->
  (label < n)%nat ->
  candidates prc y_test y_pred label = Ok cands ->
  (forall c, c ∈ cands -> meets_floors self c = false) ->
  probability_thresholds self' !! label = Some None.
Proof.
  intros H Hn Hlt Hc Hnone.
  destruct (find_probability_thresholds_inv _ _ _ _ _ H)
    as (n' & Hn' & _ & _ & Hall).
  assert (n' = n) by congruence. subst n'.
  destruct (proj1 (Hall label) Hlt) as (cands' & Hc' & _ & Hth & _).
  assert (cands' = cands) by congruence. subst cands'.
  rewrite Hth. f_equal.
  pose proof (swept_foldl self cands) as [_ Hs].
  destruct (best_threshold (foldl (sweep_step self) best_init cands)) as [t|];
    [| reflexivity].
  destruct Hs as (i & Hi & Hm & _).
  apply list_elem_of_lookup_2 in Hi. rewrite (Hnone _ Hi) in Hm. discriminate.
Qed.

Lemma swept_first_of_maximal_precision self cands b t :
  swept self cands b -> best_threshold b = Some t ->
  first_of_maximal_precision self cands (best_precision b) (best_recall b) t.
Proof.
  intros [_ Hs] Ht. rewrite Ht in Hs.
  destruct Hs as (i & Hi & Hm & _ & Hall).
  exists i. split; [done |]. split; [done |]. split; [done |].
  intros Hinc j c Hj Hc Htie.
  destruct (Hall j c Hj Hc) as [_ Hlt].
  destruct (Nat.lt_trichotomy j i) as [Hji|[Hji|Hji]].
  - (* an earlier candidate has a strictly lower precision: no tie *)
    specialize (Hlt Hji). unfold float_eq in Htie.
    apply andb_true_iff in Htie as [Htie _].
    destruct (float_gt_inv _ _ Hlt) as (x & y & Ex & Ey & Hxy).
    rewrite Ex, Ey in Htie. apply float_ge_Fin in Htie.
    exfalso. eapply Qclt_not_le; eauto.
  - by left.
  - right. apply (Hinc i j _ _ Hi Hj Hji).
Qed.

(** C5, as the code has it. For every label the calibrator went through,
    the kept candidate is the first one, in the order of the arrays of the
    precision-recall curve, among the candidates of maximal precision that
    meet both floors, and its precision is positive; when the thresholds
    increase along the arrays, every other candidate that ties with it has
    a strictly higher threshold. No threshold is kept exactly when no
    candidate that meets the floors has a positive precision. *)
Theorem calibrator_keeps_first_of_maximal_precision
    prc self y_test y_pred self' n label :
  find_probability_thresholds prc self y_test y_pred = Ok self' ->
  total_labels_count self' = Some n ->
  (label < n)%nat ->
  exists cands p r,
    candidates prc y_test y_pred label = Ok cands /\
    precisions self' !! label = Some p /\
    recalls self' !! label = Some r /\
    match probability_thresholds self' !! label with
    | Some (Some t) =>
        first_of_maximal_precision self cands p r t /\
        float_gt p (Fin 0) = true
    | Some None =>
        forall c, c ∈ cands -> meets_floors self c = true ->
          float_gt (prec_of c) (Fin 0) = false
    | None => False
    end.
Proof.
  intros H Hn Hlt.
  destruct (find_probability_thresholds_inv _ _ _ _ _ H)
    as (n' & Hn' & _ & _ & Hall).
  assert (n' = n) by congruence. subst n'.
  destruct (proj1 (Hall label) Hlt) as (cands & Hc & Hp & Hth & Hr).
  exists cands, (best_precision (foldl (sweep_step self) best_init cands)),
         (best_recall (foldl (sweep_step self) best_init cands)).
  split; [done |]. split; [done |]. split; [done |].
  rewrite Hth. pose proof (swept_foldl self cands) as Hs.
  destruct (best_threshold (foldl (sweep_step self) best_init cands))
    as [t|] eqn:Et.
  - split; [by apply swept_first_of_maximal_precision |].
    destruct Hs as [_ Hs]. rewrite Et in Hs.
    by destruct Hs as (i & _ & _ & Hpos & _).
  - destruct Hs as [_ Hs]. rewrite Et in Hs. apply Hs.
Qed.

(** With the curve of scikit-learn: every candidate other than the kept one
    that meets the floors and ties with it on precision has a strictly
    higher threshold. *)
Lemma sklearn_ties_go_to_the_lowest_threshold
    self y_test y_pred self' n label t :
  find_probability_thresholds Sklearn.precision_recall_curve
                              self y_test y_pred = Ok self' ->
  total_labels_count self' = Some n ->
  (label < n)%nat ->
  probability_thresholds self' !! label = Some (Some t) ->
  exists cands p r i,
    candidates Sklearn.precision_recall_curve y_test y_pred label = Ok cands /\
    precisions self' !! label = Some p /\
    cands !! i = Some (p, r, t) /\
    forall j c, cands !! j = Some c -> meets_floors self c = true ->
      float_eq (prec_of c) p = true ->
      j = i \/ float_gt (thre_of c) t = true.
Proof.
  intros H Hn Hlt Ht.
  destruct (find_probability_thresholds_inv _ _ _ _ _ H)
    as (n' & Hn' & _ & _ & Hall).
  assert (n' = n) by congruence. subst n'.
  destruct (proj1 (Hall label) Hlt) as (cands & Hc & Hp & Hth & _).
  rewrite Hth in Ht. inversion Ht as [Et].
  destruct (swept_first_of_maximal_precision self cands _ t
              (swept_foldl self cands) Et) as (i & Hi & _ & _ & Hinc).
  exists cands, (best_precision (foldl (sweep_step self) best_init cands)),
         (best_recall (foldl (sweep_step self) best_init cands)), i.
  split; [done |]. split; [done |]. split; [done |].
  apply Hinc. eapply SklearnFacts.sklearn_thresholds_increase; eauto.
Qed.

(** C5, as the specification words it, fails, in two ways. Two held-out
    samples, both positive, scored 0.8 and 0.9, with floors 0.7 and 0.5:
    the thresholds 0.8 and 0.9 both meet the floors with precision 1.
    Visiting thresholds from the highest down meets 0.9 first; the
    calibrator keeps 0.8. And one held-out sample, negative, scored 0.9,
    with both floors 0.0 and the arrays that later releases of
    scikit-learn return for it (precision 0, recall set to 1): the only
    candidate meets the floors, so that it is the one of maximum
    precision; the calibrator keeps none, because its precision is not
    above the initial 0.0. *)
Lemma claimed_candidate_is_not_kept :
  (let self := init (decimal 7 10) (decimal 5 10) in
   let y_test := [[true]; [true]] in
   let y_pred := [[decimal 8 10]; [decimal 9 10]] in
   exists self' cands b,
     find_probability_thresholds Sklearn.precision_recall_curve
                                 self y_test y_pred = Ok self' /\
     candidates Sklearn.precision_recall_curve y_test y_pred 0 = Ok cands /\
     precisions self' !! 0%nat = Some (best_precision b) /\
     recalls self' !! 0%nat = Some (best_recall b) /\
     probability_thresholds self' !! 0%nat = Some (best_threshold b) /\
     best_threshold b = Some (decimal 8 10) /\
     ~ first_by_decreasing_threshold self cands b) /\
  (let self := init (Fin 0) (Fin 0) in
   let prc : curve_fn :=
     fun _ _ => Ok ([Fin 0; Fin 1], [Fin 1; Fin 0], [decimal 9 10]) in
   let c : candidate := (Fin 0, Fin 1, decimal 9 10) in
   exists self',
     find_probability_thresholds prc self [[false]] [[decimal 9 10]]
     = Ok self' /\
     candidates prc [[false]] [[decimal 9 10]] 0 = Ok [c] /\
     meets_floors self c = true /\
     probability_thresholds self' !! 0%nat = Some None).
Proof.
  split.
  - intros self y_test y_pred.
    eexists _, _, (mk_best _ _ _).
    split; [vm_compute; reflexivity |].
    split; [vm_compute; reflexivity |].
    split; [vm_compute; reflexivity |].
    split; [vm_compute; reflexivity |].
    split; [vm_compute; reflexivity |].
    split; [reflexivity |].
    intros Hclaim. destruct (Hclaim _ eq_refl) as (_ & _ & Hall).
    simpl in Hall.
    match type of Hall with
    | forall c, c ∈ [_; ?c2] -> _ =>
        destruct (Hall c2) as [_ Htie];
          [apply list_elem_of_further, list_elem_of_here
          | vm_compute; reflexivity |]
    end.
    specialize (Htie ltac:(vm_compute; reflexivity)).
    vm_compute in Htie. discriminate.
  - intros self prc c. eexists.
    split; [vm_compute; reflexivity |].
    split; [reflexivity |].
    split; vm_compute; reflexivity.
Qed.

Lemma calibrator_keeps_first_of_maximal_precision_witness :
  exists self',
    find_probability_thresholds Sklearn.precision_recall_curve
      (init (decimal 7 10) (decimal 5 10))
      [[true]; [true]] [[decimal 8 10]; [decimal 9 10]] = Ok self' /\
    exists cands p r,
      candidates Sklearn.precision_recall_curve
        [[true]; [true]] [[decimal 8 10]; [decimal 9 10]] 0 = Ok cands /\
      precisions self' !! 0%nat = Some p /\
      recalls self' !! 0%nat = Some r /\
      match probability_thresholds self' !! 0%nat with
      | Some (Some t) =>
          first_of_maximal_precision (init (decimal 7 10) (decimal 5 10))
                                     cands p r t /\
          float_gt p (Fin 0) = true
      | Some None =>
          forall c, c ∈ cands ->
            meets_floors (init (decimal 7 10) (decimal 5 10)) c = true ->
            float_gt (prec_of c) (Fin 0) = false
      | None => False
      end.
Proof.
  eexists. split; [vm_compute; reflexivity |].
  apply (calibrator_keeps_first_of_maximal_precision
           Sklearn.precision_recall_curve
           (init (decimal 7 10) (decimal 5 10))
           [[true]; [true]] [[decimal 8 10]; [decimal 9 10]] _ 1 0).
  - vm_compute; reflexivity.
  - reflexivity.
  - lia.
Defined.

Lemma chosen_threshold_meets_floors_witness :
  exists self',
    find_probability_thresholds Sklearn.precision_recall_curve
      (init (decimal 7 10) (decimal 5 10))
      [[true]; [true]] [[decimal 8 10]; [decimal 9 10]] = Ok self' /\
    probability_thresholds self' !! 0%nat = Some (Some (decimal 8 10)) /\
    exists p r cands,
      precisions self' !! 0%nat = Some p /\
      recalls self' !! 0%nat = Some r /\
      float_ge p (decimal 7 10) = true /\
      float_ge r (decimal 5 10) = true /\
      candidates Sklearn.precision_recall_curve
        [[true]; [true]] [[decimal 8 10]; [decimal 9 10]] 0 = Ok cands /\
      (p, r, decimal 8 10) ∈ cands.
Proof.
  eexists. split; [vm_compute; reflexivity |].
  split; [vm_compute; reflexivity |].
  apply (chosen_threshold_meets_floors Sklearn.precision_recall_curve
           (init (decimal 7 10) (decimal 5 10))).
  - vm_compute; reflexivity.
  - vm_compute; reflexivity.
Defined.

(** A label without any positive example in the held-out data: the recall
    of every candidate is undefined and the entry is [None]. *)
Lemma no_candidate_meets_floors_gives_None_witness :
  exists self',
    find_probability_thresholds Sklearn.precision_recall_curve
      (init (decimal 7 10) (decimal 5 10))
      [[false]; [false]] [[decimal 8 10]; [decimal 9 10]] = Ok self' /\
    probability_thresholds self' !! 0%nat = Some None.
Proof.
  eexists. split; [vm_compute; reflexivity |].
  eapply (no_candidate_meets_floors_gives_None
            Sklearn.precision_recall_curve
            (init (decimal 7 10) (decimal 5 10))
            [[false]; [false]] [[decimal 8 10]; [decimal 9 10]] _ 1 0).
  - vm_compute; reflexivity.
  - reflexivity.
  - lia.
  - vm_compute; reflexivity.
  - intros c Hc. apply list_elem_of_singleton in Hc. subst c.
    vm_compute; reflexivity.
Defined.

End CalibrationFacts.

(** ** Routing and dispatch (issue_label_predictor.py) *)

Module PredictorFacts.
Import Py Predictor Routing.

Lemma has_slash_app s1 s2 : has_slash (s1 +:+ "/" +:+ s2) = true.
Proof.
  induction s1 as [|c s1 IH]; simpl; [reflexivity |].
  by destruct (Ascii.eqb c "/"%char).
Qed.

Lemma repo_key_has_slash org repo : has_slash (repo_key org repo) = true.
Proof. apply has_slash_app. Qed.

(** The registry after [_load_models]. *)
Lemma _load_models_eq env :
  _load_models env =
  <["kubeflow_combined" :=
      combined_model env [universal_model env;
                          automl_model env KUBEFLOW_AUTOML_MODEL]]>
    (<["kubeflow" := automl_model env KUBEFLOW_AUTOML_MODEL]>
       (<["universal" := universal_model env]> ∅)).
Proof. reflexivity. Qed.

Lemma loaded_key env key :
  is_Some (_load_models env !! key) <->
  key = "kubeflow_combined" \/ key = "kubeflow" \/ key = "universal".
Proof.
  rewrite _load_models_eq. split.
  - intros [m Hm].
    destruct (decide (key = "kubeflow_combined")) as [|N1]; [by left |].
    destruct (decide (key = "kubeflow")) as [|N2]; [by right; left |].
    destruct (decide (key = "universal")) as [|N3]; [by right; right |].
    rewrite !lookup_insert_ne in Hm by done. by rewrite lookup_empty in Hm.
  - intros [-> | [-> | ->]]; eexists; reflexivity.
Qed.

Lemma loaded_repo_key_unregistered env org repo :
  registered (_load_models env) (repo_key org repo) = false.
Proof.
  apply bool_decide_eq_false. intros H. apply loaded_key in H.
  pose proof (repo_key_has_slash org repo) as Hs.
  destruct H as [E|[E|E]]; rewrite E in Hs; discriminate.
Qed.

Lemma _combined_model_name_org org :
  _combined_model_name (VStr org) VNone = org_key org.
Proof. reflexivity. Qed.

Lemma _combined_model_name_repo org repo :
  repo <> EmptyString ->
  _combined_model_name (VStr org) (VStr repo) = repo_key org repo.
Proof. destruct repo; [done | reflexivity]. Qed.

Lemma _combined_model_name_empty_repo org :
  _combined_model_name (VStr org) (VStr EmptyString) = org_key org.
Proof. reflexivity. Qed.

Lemma resolve_model_name_nonempty models org repo :
  repo <> EmptyString ->
  resolve_model_name models (VStr org) (VStr repo)
  = resolution_order models org repo.
Proof.
  intros Hrepo. unfold resolve_model_name, resolution_order, registered.
  rewrite _combined_model_name_org, _combined_model_name_repo by done.
  reflexivity.
Qed.

Lemma resolve_model_name_loaded env org repo :
  resolve_model_name (_load_models env) (VStr org) (VStr repo)
  = resolution_order (_load_models env) org repo.
Proof.
  destruct (decide (repo = EmptyString)) as [-> | Hrepo];
    [| by apply resolve_model_name_nonempty].
  unfold resolve_model_name, resolution_order.
  rewrite loaded_repo_key_unregistered.
  rewrite _combined_model_name_org, _combined_model_name_empty_repo.
  fold (registered (_load_models env) (org_key org)).
  by destruct (registered (_load_models env) (org_key org)).
Qed.

Lemma resolution_order_registered models org repo :
  is_Some (models !! "universal") ->
  is_Some (models !! resolution_order models org repo).
Proof.
  intros Hu. unfold resolution_order, registered.
  repeat case_bool_decide; done.
Qed.

Lemma predict_labels_for_data_registered models key m org repo title body :
  models !! key = Some m ->
  (predict_labels_for_data models (VStr key) org repo title body).2
  = predict_issue_labels m org repo title body.
Proof.
  intros Hm. unfold predict_labels_for_data. simpl. rewrite Hm. reflexivity.
Qed.

(** C4. Without an explicit override, resolution on the registry the
    predictor loads returns, for every organisation and repository, the
    repository key if it is registered, else the organisation key if it is
    registered, else "universal"; the key it returns is registered, so the
    prediction goes to that model without a lookup error. On any registry
    the same order holds for every repository with a non-empty name. *)
Theorem resolution_is_total_and_ordered env org repo :
  let models := _load_models env in
  let key := resolve_model_name models (VStr org) (VStr repo) in
  key = resolution_order models org repo /\
  (exists m, models !! key = Some m /\
     forall issue_number data,
       get_issue_text env issue_number (VStr org) (VStr repo) = Ok data ->
       (predict_labels_for_issue env models (VStr org) (VStr repo)
                                 issue_number VNone).2
       = predict_issue_labels m (VStr org) (VStr repo)
           (dict_get data "title") (VList [dict_get data "body"])) /\
  (forall registry, repo <> EmptyString ->
     resolve_model_name registry (VStr org) (VStr repo)
     = resolution_order registry org repo).
Proof.
  intros models key.
  assert (Hkey : key = resolution_order models org repo)
    by apply resolve_model_name_loaded.
  split; [exact Hkey |]. split.
  - destruct (resolution_order_registered models org repo) as [m Hm].
    { apply loaded_key. auto. }
    rewrite <- Hkey in Hm. exists m. split; [exact Hm |].
    intros issue_number data Hdata.
    unfold predict_labels_for_issue. simpl. rewrite Hdata. simpl.
    fold models. fold key.
    pose proof (predict_labels_for_data_registered models key m
                  (VStr org) (VStr repo) (dict_get data "title")
                  (VList [dict_get data "body"]) Hm) as Hp.
    destruct (predict_labels_for_data models (VStr key) (VStr org) (VStr repo)
                (dict_get data "title") (VList [dict_get data "body"]))
      as [t r].
    simpl in Hp. subst r.
    destruct (truthy (dict_get data "title")),
             (truthy (dict_get data "body")); reflexivity.
  - intros registry Hrepo. by apply resolve_model_name_nonempty.
Qed.

(** With an empty repository name the code asks for the organisation key
    twice; on a registry that held a key ["<org>/_combined"] the order of
    the specification would pick that key. *)
Lemma empty_repo_name_resolves_to_org_key m :
  let registry : gmap string Model :=
    <["acme/_combined" := m]> (<["acme_combined" := m]> ∅) in
  resolve_model_name registry (VStr "acme") (VStr EmptyString)
  = "acme_combined" /\
  resolution_order registry "acme" EmptyString = "acme/_combined".
Proof. split; reflexivity. Qed.

Lemma _dict_has_keys_true d keys :
  _dict_has_keys d keys = true <-> forall k, k ∈ keys -> has_key d k = true.
Proof.
  induction keys as [|k keys IH]; simpl.
  - split; [intros _ k Hk; inversion Hk | done].
  - destruct (has_key d k) eqn:Hk; simpl.
    + rewrite IH. split.
      * intros H k' Hk'. apply elem_of_cons in Hk' as [-> | Hk']; auto.
      * intros H k' Hk'. apply H. by apply list_elem_of_further.
    + split; [done |]. intros H. rewrite <- Hk. apply H, list_elem_of_here.
Qed.

Lemma payload_item_present d k :
  has_key d k = true -> payload_item d k = Ok (payload_get d k).
Proof. unfold payload_item. by intros ->. Qed.

(** A payload with the three text fields: the call to the text-based path
    is rejected by Python before the path runs, whatever the payload
    holds. No model is invoked. *)
Lemma text_payload_raises_TypeError env models data :
  _dict_has_keys data text_keys = true ->
  predict env models data =
  ([], Raise (mk_exn TypeError
     "predict_labels_for_data() missing 2 required positional arguments: title, body")).
Proof.
  intros H. unfold predict. rewrite H.
  rewrite _dict_has_keys_true in H.
  rewrite !payload_item_present
    by (apply H; unfold text_keys; set_solver).
  reflexivity.
Qed.

(** A payload with the three issue fields, and not all the text fields, goes
    to the issue-based path. *)
Lemma issue_payload_is_routed env models data :
  _dict_has_keys data text_keys = false ->
  _dict_has_keys data issue_keys = true ->
  predict env models data =
  predict_labels_for_issue env models
    (payload_get data "repo_owner") (payload_get data "repo_name")
    (payload_get data "issue_num") (payload_get data "model_name").
Proof.
  intros Ht Hi. unfold predict. rewrite Ht, Hi.
  rewrite _dict_has_keys_true in Hi.
  rewrite !payload_item_present
    by (apply Hi; unfold issue_keys; set_solver).
  simpl.
  destruct (predict_labels_for_issue env models _ _ _ _) as [t r].
  by destruct r.
Qed.

(** A payload with neither field set is rejected with an error that names
    both field sets; no model is invoked. *)
Lemma incomplete_payload_is_rejected env models data :
  _dict_has_keys data text_keys = false ->
  _dict_has_keys data issue_keys = false ->
  let message :=
    "Data is missing required keys; got " +:+ join "," data.*1
    +:+ "; want [title,text,model_name] or [repo_owner,repo_name,issue_num]" in
  predict env models data
  = ([LogError message], Raise (mk_exn ValueError message)) /\
  invokes_model (predict env models data).1 = false.
Proof.
  intros Ht Hi. unfold predict. rewrite Ht, Hi. split; reflexivity.
Qed.

(** C7, the text branch on a payload of the shape the docstring gives.
    The payload holds title, text and model_name, the model is registered,
    and [predict] raises [TypeError] without invoking any model: the call
    passes three positional arguments to [predict_labels_for_data], which
    requires five (model_name, org, repo, title, body). *)
Theorem text_payload_never_reaches_a_model env :
  let data := [("title", VStr "some issue title");
               ("text", VStr "text for some issue");
               ("model_name", VStr "universal")] in
  _dict_has_keys data text_keys = true /\
  is_Some (_load_models env !! "universal") /\
  (exists msg,
     (predict env (_load_models env) data).2
     = Raise (mk_exn TypeError msg)) /\
  invokes_model (predict env (_load_models env) data).1 = false.
Proof.
  intros data. split; [reflexivity |]. split; [by eexists |].
  rewrite text_payload_raises_TypeError by reflexivity.
  split; [by eexists | reflexivity].
Qed.

End PredictorFacts.

(** ** Prediction and consumption (worker.py) *)

Module WorkerFacts.
Import Py Worker Labelling.

(** *** The embedding *)

Lemma get_issue_embedding_non_200 env self owner name num text r :
  get_issue_text env owner name num = Ok text ->
  requests_post env (embedding_api_endpoint self) text = Ok r ->
  status_code r <> 200%Z ->
  (get_issue_embedding env self owner name num).2 = Ok None.
Proof.
  intros Ht Hr Hs. unfold get_issue_embedding. rewrite Ht. simpl.
  rewrite Hr. simpl.
  destruct (Z.eqb_spec (status_code r) 200) as [E|_]; [done | reflexivity].
Qed.

Lemma get_issue_embedding_200 env self owner name num text r :
  get_issue_text env owner name num = Ok text ->
  requests_post env (embedding_api_endpoint self) text = Ok r ->
  status_code r = 200%Z ->
  (get_issue_embedding env self owner name num).2
  = (embeddings ← Np.frombuffer_f4 (content r); Ok (Some (take 1600 embeddings))).
Proof.
  intros Ht Hr Hs. unfold get_issue_embedding. rewrite Ht. simpl.
  rewrite Hr. simpl. rewrite Hs. simpl.
  by destruct (Np.frombuffer_f4 (content r)).
Qed.

(** C8. When the embedding service answers with a status other than 200,
    the embedding getter returns [None] and the prediction for the issue is
    the empty label set, without an error. *)
Theorem unavailable_embedding_gives_no_labels
    env self owner name num text r cols :
  get_issue_text env owner name num = Ok text ->
  requests_post env (embedding_api_endpoint self) text = Ok r ->
  status_code r <> 200%Z ->
  (load_label_columns env self).2 = Ok cols ->
  (get_issue_embedding env self owner name num).2 = Ok None /\
  (predict_labels env self owner name num).2
  = Ok (mk_Predictions [] [], None).
Proof.
  intros Ht Hr Hs Hcols.
  pose proof (get_issue_embedding_non_200 _ _ _ _ _ _ _ Ht Hr Hs) as He.
  split; [exact He |].
  unfold predict_labels, predict_issue_probability. simpl.
  destruct (get_issue_embedding env self owner name num) as [t1 r1].
  simpl in He. subst r1. simpl.
  destruct (load_label_columns env self) as [t2 r2].
  simpl in Hcols. subst r2. reflexivity.
Qed.

Lemma unavailable_embedding_gives_no_labels_witness :
  let env := sample_env (Ok sample_config) (mk_Response 404 [])
               (mk_LabelColumns ["bug"] {[0%nat := Some (decimal 5 10)]}) in
  (get_issue_embedding env sample_worker "kubeflow" "examples" "1").2
  = Ok None /\
  (predict_labels env sample_worker "kubeflow" "examples" "1").2
  = Ok (mk_Predictions [] [], None).
Proof.
  intros env.
  apply (unavailable_embedding_gives_no_labels env sample_worker
           "kubeflow" "examples" "1"
           (mk_IssueText "New issue" "It fails.") (mk_Response 404 [])
           (mk_LabelColumns ["bug"] {[0%nat := Some (decimal 5 10)]})).
  - reflexivity.
  - reflexivity.
  - simpl. lia.
  - reflexivity.
Defined.

Lemma le_words_length bs : length (Np.le_words bs) = (length bs / 4)%nat.
Proof.
  induction bs as [bs IH] using (induction_ltof1 _ (@length _)).
  unfold ltof in IH.
  destruct bs as [|b0 [|b1 [|b2 [|b3 rest]]]]; try reflexivity.
  cbn [Np.le_words length]. rewrite IH by (simpl; lia).
  change (S (S (S (S (length rest))))) with (4 + length rest)%nat.
  replace (4 + length rest)%nat with (length rest + 1 * 4)%nat by lia.
  rewrite Nat.div_add by lia. lia.
Qed.

Lemma le_words_lookup bs : forall i,
  (i < length bs / 4)%nat -> Np.le_words bs !! i = word_at bs i.
Proof.
  induction bs as [bs IH] using (induction_ltof1 _ (@length _)).
  unfold ltof in IH. intros i Hi.
  destruct bs as [|b0 [|b1 [|b2 [|b3 rest]]]];
    try (simpl in Hi; lia).
  destruct i as [|i].
  - reflexivity.
  - cbn [Np.le_words]. rewrite lookup_cons. rewrite IH.
    + unfold word_at.
      replace (4 * S i)%nat with (S (S (S (S (4 * i))))) by lia.
      replace (S (S (S (S (4 * i)))) + 1)%nat
        with (S (S (S (S (4 * i + 1))))) by lia.
      replace (S (S (S (S (4 * i)))) + 2)%nat
        with (S (S (S (S (4 * i + 2))))) by lia.
      replace (S (S (S (S (4 * i)))) + 3)%nat
        with (S (S (S (S (4 * i + 3))))) by lia.
      reflexivity.
    + simpl. lia.
    + change (length (b0 :: b1 :: b2 :: b3 :: rest))
        with (4 + length rest)%nat in Hi.
      replace (4 + length rest)%nat with (length rest + 1 * 4)%nat in Hi by lia.
      rewrite Nat.div_add in Hi by lia. lia.
Qed.

(** What the getter does on a 200 response. When the length of the body
    is a multiple of four, the embedding consists of the little-endian
    binary32 words of the body, cut after the first 1600: it has 1600
    elements when the body holds at least that many and fewer otherwise,
    nothing is padded. A body whose length is not a multiple of four makes
    the getter raise [ValueError]. *)
Lemma embedding_is_cut_at_1600_never_padded
    env self owner name num text r :
  get_issue_text env owner name num = Ok text ->
  requests_post env (embedding_api_endpoint self) text = Ok r ->
  status_code r = 200%Z ->
  match (get_issue_embedding env self owner name num).2 with
  | Ok (Some emb) =>
      (length (content r) mod 4 = 0)%nat /\
      length emb = Nat.min (length (content r) / 4) 1600 /\
      forall i, (i < length emb)%nat -> emb !! i = word_at (content r) i
  | Ok None => False
  | Raise e =>
      (length (content r) mod 4 <> 0)%nat /\ exn_class e = ValueError
  end.
Proof.
  intros Ht Hr Hs.
  rewrite (get_issue_embedding_200 _ _ _ _ _ _ _ Ht Hr Hs).
  unfold Np.frombuffer_f4.
  destruct (Nat.eqb_spec (length (content r) mod 4) 0) as [E|N];
    cbv [mbind result_bind].
  - split; [exact E |]. split.
    + rewrite length_take, le_words_length. lia.
    + intros i Hi. rewrite length_take, le_words_length in Hi.
      rewrite lookup_take_lt by lia. apply le_words_lookup. lia.
  - split; [exact N | reflexivity].
Qed.

(** C9, at a 200 response with a body of eight bytes (the numbers 1.0 and
    2.0): the claim, and the docstring of the getter ("shape: (1600,)"),
    have the embedding hold exactly 1600 elements; the getter returns the
    two elements of the body, since it only slices and never pads. *)
Theorem short_body_gives_short_embedding :
  let body := [Byte.x00; Byte.x00; Byte.x80; Byte.x3f;
               Byte.x00; Byte.x00; Byte.x00; Byte.x40] in
  let env := sample_env (Ok sample_config) (mk_Response 200 body)
                        (mk_LabelColumns [] ∅) in
  (get_issue_embedding env sample_worker "kubeflow" "examples" "1").2
  = Ok (Some [1065353216%Z; 1073741824%Z]) /\
  length [1065353216%Z; 1073741824%Z] <> 1600%nat.
Proof. split; [reflexivity | simpl; lia]. Qed.

(** *** The threshold test *)

Lemma check_threshold_unfold cols i p acc :
  check_threshold cols i p acc =
  match label_thresholds cols !! i with
  | None => Raise (mk_exn KeyError (pretty i))
  | Some _ =>
      if keeps cols i p
      then match label_names cols !! i with
           | None => Raise (mk_exn IndexError "list index out of range")
           | Some name =>
               Ok (mk_Predictions (labels acc ++ [name])
                                  (probabilities acc ++ [p]))
           end
      else Ok acc
  end.
Proof.
  unfold check_threshold, keeps.
  by destruct (label_thresholds cols !! i) as [[t|]|].
Qed.

(** The outcome of the loop: the probabilities of the selected positions,
    and the names found at these positions. *)
Lemma check_thresholds_inv cols probs : forall i acc preds,
  check_thresholds cols i probs acc = Ok preds ->
  exists names,
    labels preds = labels acc ++ names /\
    probabilities preds = probabilities acc ++ (selected cols i probs).*2 /\
    Forall2 (fun ip name => label_names cols !! ip.1 = Some name)
            (selected cols i probs) names.
Proof.
  induction probs as [|p probs IH]; intros i acc preds H.
  - simpl in H. inversion H; subst preds. exists [].
    rewrite !app_nil_r. repeat split; constructor.
  - simpl in H. rewrite check_threshold_unfold in H.
    destruct (label_thresholds cols !! i) as [thr|]; [| discriminate].
    simpl. destruct (keeps cols i p) eqn:Hk.
    + destruct (label_names cols !! i) as [name|] eqn:Hn; [| discriminate].
      simpl in H. destruct (IH _ _ _ H) as (names & Hl & Hp & Hf).
      simpl in Hl, Hp. exists (name :: names).
      rewrite Hl, Hp, <- !app_assoc. repeat split.
      constructor; [exact Hn | exact Hf].
    + simpl in H. apply (IH _ _ _ H).
Qed.

Lemma elem_of_selected cols probs : forall i j p,
  (j, p) ∈ selected cols i probs <->
  (i <= j)%nat /\ probs !! (j - i)%nat = Some p /\ keeps cols j p = true.
Proof.
  induction probs as [|q probs IH]; intros i j p.
  - simpl. split; [intros H; inversion H | intros (_ & H & _); done].
  - assert (Hrest : (j, p) ∈ selected cols (S i) probs <->
                    (i < j)%nat /\ (q :: probs) !! (j - i)%nat = Some p
                    /\ keeps cols j p = true).
    { rewrite IH. split.
      - intros (Hle & Hl & Hk). split; [lia |]. split; [| done].
        replace (j - i)%nat with (S (j - S i)) by lia. done.
      - intros (Hlt & Hl & Hk). split; [lia |]. split; [| done].
        replace (j - i)%nat with (S (j - S i)) in Hl by lia. done. }
    simpl. destruct (keeps cols i q) eqn:Hk.
    + rewrite elem_of_cons, Hrest. split.
      * intros [E | (Hlt & Hl & Hkj)].
        -- inversion E; subst j p. rewrite Nat.sub_diag. auto.
        -- split; [lia | done].
      * intros (Hle & Hl & Hkj).
        destruct (decide (i = j)) as [<- | Hne].
        -- left. rewrite Nat.sub_diag in Hl. simpl in Hl. congruence.
        -- right. split; [lia | done].
    + rewrite Hrest. split.
      * intros (Hlt & Hl & Hkj). split; [lia | done].
      * intros (Hle & Hl & Hkj).
        destruct (decide (i = j)) as [<- | Hne].
        -- rewrite Nat.sub_diag in Hl. simpl in Hl. congruence.
        -- split; [lia | done].
Qed.

(** What the loop retains, position by position: the pair (name,
    probability) of position [j] is in the output exactly when the entry
    for [j] is a number other than zero that the probability meets. *)
Lemma retained_iff_keeps cols probs preds j p :
  check_thresholds cols 0 probs (mk_Predictions [] []) = Ok preds ->
  probs !! j = Some p ->
  (exists name, label_names cols !! j = Some name /\
                (j, p) ∈ selected cols 0 probs /\
                (name, p) ∈ zip (labels preds) (probabilities preds))
  <-> keeps cols j p = true.
Proof.
  intros H Hp. destruct (check_thresholds_inv _ _ _ _ _ H)
    as (names & Hl & Hpr & Hf). simpl in Hl, Hpr.
  rewrite Hl, Hpr. split.
  - intros (name & _ & Hsel & _). by apply elem_of_selected in Hsel as (_ & _ & ?).
  - intros Hk.
    assert (Hsel : (j, p) ∈ selected cols 0 probs).
    { apply elem_of_selected. rewrite Nat.sub_0_r. split; [lia | done]. }
    apply list_elem_of_lookup in Hsel as [k Hk'].
    destruct (Forall2_lookup_l _ _ _ k _ Hf Hk') as (name & Hname & Hn).
    exists name. split; [exact Hn |]. split.
    + eapply list_elem_of_lookup_2; eauto.
    + apply list_elem_of_lookup. exists k.
      rewrite lookup_zip_with, Hname. simpl.
      rewrite list_lookup_fmap, Hk'. reflexivity.
Qed.

(** The two tests agree except on a threshold equal to zero. *)
Lemma keeps_iff_meets_nonzero_threshold cols i p :
  keeps cols i p = true <->
  meets_threshold cols i p = true /\
  label_thresholds cols !! i <> Some (Some (Fin 0)).
Proof.
  unfold keeps, meets_threshold.
  destruct (label_thresholds cols !! i) as [[[t|]|]|]; simpl;
    try (split; [discriminate | intros [? _]; discriminate]).
  - rewrite andb_true_iff, negb_true_iff, bool_decide_eq_false. split.
    + intros [Ht Hge]. split; [exact Hge |]. intros E. by inversion E.
    + intros [Hge Ht]. split; [| exact Hge]. intros ->. by apply Ht.
  - destruct p; simpl; split; (discriminate || (intros [? _]; discriminate)).
Qed.

(** The loop of [predict_labels] alone on the regression scenario:
    thresholds 0.5 for label1 and label2 and probabilities 0.2 and 0.9
    give label2 with 0.9 and nothing else. *)
Lemma regression_scenario :
  check_thresholds
    (mk_LabelColumns ["label1"; "label2"]
       (<[0%nat := Some (decimal 5 10)]> {[1%nat := Some (decimal 5 10)]}))
    0 [decimal 2 10; decimal 9 10] (mk_Predictions [] [])
  = Ok (mk_Predictions ["label2"] [decimal 9 10]).
Proof. reflexivity. Qed.

(** With an embedding at hand the classifier is never run: building the
    wrapper raises [TypeError] for the keyword [load_from_model], and so
    do [predict_issue_probability] and [predict_labels]. *)
Lemma available_embedding_raises_TypeError env self owner name num emb cfg :
  (get_issue_embedding env self owner name num).2 = Ok (Some emb) ->
  config self = Some cfg ->
  exists msg,
    (predict_issue_probability env self owner name num).2
    = Raise (mk_exn TypeError msg) /\
    (predict_labels env self owner name num).2
    = Raise (mk_exn TypeError msg).
Proof.
  intros He Hcfg. eexists.
  unfold predict_labels, predict_issue_probability, get_config.
  destruct (get_issue_embedding env self owner name num) as [t r].
  cbn [snd] in He. subst r. rewrite Hcfg.
  split; reflexivity.
Qed.

(** C3, at the regression scenario of the claim: label1 and label2 with
    thresholds 0.5, and an issue for which the embedding service returns
    1600 numbers. The claim has the prediction retain label2 once the
    classifier has given 0.2 and 0.9; the code raises [TypeError] when it
    builds the classifier, before any probability exists, and returns no
    prediction. *)
Theorem regression_scenario_raises_TypeError :
  let cols := mk_LabelColumns ["label1"; "label2"]
                (<[0%nat := Some (decimal 5 10)]>
                   {[1%nat := Some (decimal 5 10)]}) in
  let body := replicate (4 * 1600) Byte.x00 in
  let env := sample_env (Ok sample_config) (mk_Response 200 body) cols in
  (exists emb,
     (get_issue_embedding env sample_worker "kubeflow" "examples" "1").2
     = Ok (Some emb) /\ length emb = 1600%nat) /\
  (load_label_columns env sample_worker).2 = Ok cols /\
  exists msg,
    Mlp.construct ["clf"; "model_file"; "load_from_model"] false
    = Raise (mk_exn TypeError msg) /\
    (predict_issue_probability env sample_worker
       "kubeflow" "examples" "1").2 = Raise (mk_exn TypeError msg) /\
    (predict_labels env sample_worker "kubeflow" "examples" "1").2
    = Raise (mk_exn TypeError msg).
Proof.
  intros cols body env.
  assert (Hemb : exists emb,
            (get_issue_embedding env sample_worker
               "kubeflow" "examples" "1").2 = Ok (Some emb)
            /\ length emb = 1600%nat).
  { eexists. split; vm_compute; reflexivity. }
  split; [exact Hemb |]. split; [reflexivity |].
  destruct Hemb as (emb & Hemb & _).
  destruct (available_embedding_raises_TypeError env sample_worker
              "kubeflow" "examples" "1" emb sample_config Hemb eq_refl)
    as (msg & H1 & H2).
  exists msg. split; [| by split].
  unfold predict_issue_probability in H1.
  destruct (get_issue_embedding env sample_worker _ _ _) as [t r].
  cbn [snd] in Hemb. subst r.
  cbn [mbind io_bind lift get_config sample_worker config snd] in H1.
  by destruct (Mlp.construct _ _) as [[]|e]; inversion H1.
Qed.

(** *** Parallel sequences *)

Lemma select_specified_filter predicted_labels pairs :
  select_specified predicted_labels pairs =
  ((filter (fun np => np.1 ∈ predicted_labels) pairs).*1,
   (filter (fun np => np.1 ∈ predicted_labels) pairs).*2).
Proof.
  induction pairs as [|[name proba] pairs IH]; [reflexivity |].
  simpl. rewrite IH. rewrite filter_cons. simpl.
  case_bool_decide; case_decide; done.
Qed.





(** *** The consumer callback *)

Lemma ack_count_app t1 t2 :
  ack_count (t1 ++ t2) = (ack_count t1 + ack_count t2)%nat.
Proof. unfold ack_count. by rewrite List.filter_app, length_app. Qed.

Lemma ack_count_effects (t : list event) : ack_count (Effect <$> t) = 0%nat.
Proof. induction t as [|e t IH]; [reflexivity | exact IH]. Qed.

Lemma ack_count_cons_effect e t : ack_count (Effect e :: t) = ack_count t.
Proof. reflexivity. Qed.

Lemma attribute_present message k v :
  attributes message !! k = Some v -> attribute message k = v.
Proof. unfold attribute. by intros ->. Qed.

(** The callback: the receipt is logged with the attributes of the
    message, the processing runs, an exception it raises is logged if it
    derives from [Exception], and then the message is acknowledged. *)
Lemma callback_unfold env self message :
  let iid := attribute message "installation_id" in
  let owner := attribute message "repo_owner" in
  let name := attribute message "repo_name" in
  let num := attribute message "issue_num" in
  callback env self message =
  match processing env self iid owner name num with
  | (t, Ok _) =>
      (Effect (LogInfo ("Receive issue #" +:+ num +:+ " from "
                        +:+ owner +:+ "/" +:+ name))
         :: (Effect <$> t) ++ [Ack], Ok tt)
  | (t, Raise e) =>
      if is_Exception (exn_class e)
      then (Effect (LogInfo ("Receive issue #" +:+ num +:+ " from "
                             +:+ owner +:+ "/" +:+ name))
              :: ((Effect <$> t)
                  ++ [Effect (LogError ("Addressing issue #" +:+ num
                                +:+ " from " +:+ owner +:+ "/" +:+ name
                                +:+ " causes an error"));
                      Effect (LogError ("Error type: <class '"
                                +:+ class_name (exn_class e) +:+ "'>"));
                      Effect (LogException e)])
                 ++ [Ack], Ok tt)
      else (Effect (LogInfo ("Receive issue #" +:+ num +:+ " from "
                             +:+ owner +:+ "/" +:+ name))
              :: (Effect <$> t), Raise e)
  end.
Proof.
  intros iid owner name num. unfold callback. fold iid owner name num.
  cbv zeta. cbn [lift mbind io_bind app emit].
  unfold try_except, effects.
  destruct (processing env self iid owner name num) as [t [[]|e]];
    cbn [fst snd].
  - reflexivity.
  - destruct (is_Exception (exn_class e)); reflexivity.
Qed.

(** C1, as the code has it. On every message the callback acknowledges
    the message exactly once, as its last action, and returns normally,
    both when the processing completes and when it raises an exception
    that derives from [Exception]. The processing is given the four
    attributes the callback reads from the message. *)
Theorem callback_acks_exactly_once env self message :
  raises_only_Exception
    (processing env self (attribute message "installation_id")
       (attribute message "repo_owner") (attribute message "repo_name")
       (attribute message "issue_num")) ->
  (callback env self message).2 = Ok tt /\
  ack_count (callback env self message).1 = 1%nat /\
  exists t, (callback env self message).1 = t ++ [Ack].
Proof.
  intros Hexc. rewrite callback_unfold. cbv zeta.
  unfold raises_only_Exception in Hexc.
  destruct (processing env self _ _ _ _) as [t [[]|e]];
    cbn [fst snd] in *.
  - split; [reflexivity |]. split.
    + rewrite ack_count_cons_effect, ack_count_app, ack_count_effects.
      reflexivity.
    + eexists (_ :: _). reflexivity.
  - rewrite (Hexc e eq_refl). cbn [fst snd].
    split; [reflexivity |]. split.
    + rewrite ack_count_cons_effect, !ack_count_app, ack_count_effects.
      reflexivity.
    + eexists (_ :: _). reflexivity.
Qed.

(** A message the embedding service answers with a body of three bytes:
    decoding raises [ValueError] inside the processing, the error is
    logged, and the message is acknowledged. *)
Lemma callback_acks_exactly_once_witness :
  let env := sample_env (Ok sample_config)
               (mk_Response 200 [Byte.x00; Byte.x00; Byte.x80])
               (mk_LabelColumns [] ∅) in
  (processing env sample_worker "10000" "kubeflow" "examples" "1").2
  = Raise (mk_exn ValueError "buffer size must be a multiple of element size")
  /\
  (callback env sample_worker sample_message).2 = Ok tt /\
  ack_count (callback env sample_worker sample_message).1 = 1%nat /\
  exists t, (callback env sample_worker sample_message).1 = t ++ [Ack].
Proof.
  intros env. split; [reflexivity |].
  apply (callback_acks_exactly_once env sample_worker sample_message).
  intros e He. vm_compute in He. inversion He. reflexivity.
Defined.

(** A message without attributes is processed with empty strings for the
    four of them, and acknowledged like any other. *)
Lemma message_without_attributes_is_acked :
  let env := sample_env (Ok sample_config) (mk_Response 404 [])
                        (mk_LabelColumns [] ∅) in
  (callback env sample_worker (mk_Message ∅)).2 = Ok tt /\
  ack_count (callback env sample_worker (mk_Message ∅)).1 = 1%nat.
Proof. split; reflexivity. Qed.

(** C1, as the specification words it, fails: an exception that does not
    derive from [Exception], here [SystemExit] raised while the
    configuration of the repository is built, passes through the [except]
    clause; it propagates past the callback and the message is not
    acknowledged. *)
Lemma system_exit_is_not_caught :
  let env := sample_env (Raise (mk_exn SystemExit "exit")) (mk_Response 200 [])
                        (mk_LabelColumns [] ∅) in
  (processing env sample_worker "10000" "kubeflow" "examples" "1").2
  = Raise (mk_exn SystemExit "exit") /\
  (callback env sample_worker sample_message).2
  = Raise (mk_exn SystemExit "exit") /\
  ack_count (callback env sample_worker sample_message).1 = 0%nat.
Proof. split; [| split]; reflexivity. Qed.

End WorkerFacts.

(** * Further properties of the code *)

(** ** Calibration: the tables as a whole (mlp.py) *)

Module CalibrationCoverage.
Import Py Mlp Calibration CalibrationFacts.

Lemma candidates_calibrate_label prc y_test y_pred self label cands :
  candidates prc y_test y_pred label = Ok cands ->
  exists self', calibrate_label prc y_test y_pred self label = Ok self'.
Proof.
  unfold calibrate_label, candidates.
  destruct (Np.column label y_test) as [y_true|]; [| discriminate].
  destruct (Np.column label y_pred) as [y_score|]; [| discriminate].
  simpl. destruct (prc y_true y_score) as [[[pr rc] th]|]; [| discriminate].
  simpl. eauto.
Qed.

Lemma for_labels_succeeds prc y_test y_pred labels : forall self,
  (forall label, label ∈ labels ->
     exists cands, candidates prc y_test y_pred label = Ok cands) ->
  exists self', for_labels prc y_test y_pred self labels = Ok self'.
Proof.
  induction labels as [|l labels IH]; intros self H; simpl; [eauto |].
  destruct (H l) as [cands Hc]; [left |].
  destruct (candidates_calibrate_label _ _ _ self _ _ Hc) as [self1 H1].
  rewrite H1. simpl. apply IH. intros label Hl. apply H. by right.
Qed.

Lemma for_labels_fails prc y_test y_pred labels : forall self self',
  for_labels prc y_test y_pred self labels = Ok self' ->
  forall label, label ∈ labels ->
    exists cands, candidates prc y_test y_pred label = Ok cands.
Proof.
  intros self self' H label Hl.
  destruct (for_labels_inv _ _ _ _ _ _ H) as (_ & _ & _ & Hall).
  destruct (proj1 (Hall label) Hl) as (cands & Hc & _). eauto.
Qed.

Lemma label_count_is_the_row_width
    prc self y_test y_pred self' n :
  find_probability_thresholds prc self y_test y_pred = Ok self' ->
  total_labels_count self' = Some n ->
  exists row0 rows, y_test = row0 :: rows /\ n = length row0.
Proof.
  unfold find_probability_thresholds.
  destruct y_test as [|row0 rows]; [discriminate |]. intros H Hn.
  destruct (for_labels_inv _ _ _ _ _ _ H) as (_ & _ & Hn' & _).
  simpl in Hn'. exists row0, rows. split; [done | congruence].
Qed.

(** X1. Calibration is all or nothing: it returns tables exactly when the
    held-out labels are not empty and the curve of every label, from 0 to
    the width of the first row, can be computed; one label whose column or
    curve fails makes the whole call fail. *)
Theorem calibration_succeeds_iff_every_curve_does prc self y_test y_pred :
  (exists self', find_probability_thresholds prc self y_test y_pred = Ok self')
  <->
  exists row0 rows,
    y_test = row0 :: rows /\
    forall label, (label < length row0)%nat ->
      exists cands, candidates prc y_test y_pred label = Ok cands.
Proof.
  unfold find_probability_thresholds. split.
  - intros [self' H]. destruct y_test as [|row0 rows]; [discriminate |].
    exists row0, rows. split; [done |]. intros label Hl.
    eapply for_labels_fails; [exact H |]. apply elem_of_seq. lia.
  - intros (row0 & rows & -> & H). apply for_labels_succeeds.
    intros label Hl. apply H. apply elem_of_seq in Hl. lia.
Qed.

(** X2. After a calibration the three tables hold an entry for the labels
    0 .. n-1 and for no other index, where n, also stored as the label
    count, is the width of the first held-out row. *)
Theorem tables_cover_exactly_the_labels prc self y_test y_pred self' :
  find_probability_thresholds prc self y_test y_pred = Ok self' ->
  exists row0 rows,
    y_test = row0 :: rows /\
    total_labels_count self' = Some (length row0) /\
    forall label,
      (is_Some (probability_thresholds self' !! label)
       <-> (label < length row0)%nat) /\
      (is_Some (precisions self' !! label) <-> (label < length row0)%nat) /\
      (is_Some (recalls self' !! label) <-> (label < length row0)%nat).
Proof.
  unfold find_probability_thresholds.
  destruct y_test as [|row0 rows]; [discriminate |]. intros H.
  exists row0, rows. split; [done |].
  destruct (for_labels_inv _ _ _ _ _ _ H) as (_ & _ & Hn & Hall).
  split; [exact Hn |]. intros label.
  destruct (decide (label < length row0)%nat) as [Hlt|Hge].
  - destruct (proj1 (Hall label)) as (cands & _ & Hp & Ht & Hr).
    { apply elem_of_seq. lia. }
    rewrite Hp, Ht, Hr. repeat split; eauto.
  - destruct (proj2 (Hall label)) as (Hp & Ht & Hr).
    { rewrite elem_of_seq. lia. }
    rewrite Hp, Ht, Hr. simpl. rewrite !lookup_empty.
    repeat split; try (intros [? ?]; discriminate); intros; lia.
Qed.

Lemma tables_cover_exactly_the_labels_witness :
  exists self',
    find_probability_thresholds Sklearn.precision_recall_curve
      (init (decimal 7 10) (decimal 5 10))
      [[true; false]; [true; true]]
      [[decimal 8 10; decimal 1 10]; [decimal 9 10; decimal 6 10]]
    = Ok self' /\
    total_labels_count self' = Some 2%nat /\
    is_Some (probability_thresholds self' !! 1%nat) /\
    ~ is_Some (probability_thresholds self' !! 2%nat).
Proof.
  destruct (tables_cover_exactly_the_labels Sklearn.precision_recall_curve
              (init (decimal 7 10) (decimal 5 10))
              [[true; false]; [true; true]]
              [[decimal 8 10; decimal 1 10]; [decimal 9 10; decimal 6 10]]
              _ eq_refl) as (row0 & rows & E & Hn & Hall).
  inversion E; subst row0 rows.
  eexists. split; [reflexivity |]. split; [exact Hn |]. split.
  - apply (Hall 1%nat). simpl. lia.
  - intros H. apply (Hall 2%nat) in H. simpl in H. lia.
Defined.

(** X3. For every calibrated label the recorded precision and recall are
    both 0.0 when no threshold was chosen, and the recorded precision is
    positive when one was: a precision of 0.0 in the table marks a label
    that is never predicted. *)
Theorem zero_precision_marks_the_unpredicted_label
    prc self y_test y_pred self' n label :
  find_probability_thresholds prc self y_test y_pred = Ok self' ->
  total_labels_count self' = Some n ->
  (label < n)%nat ->
  exists p r,
    precisions self' !! label = Some p /\
    recalls self' !! label = Some r /\
    ((probability_thresholds self' !! label = Some None /\
      p = Fin 0 /\ r = Fin 0)
     \/
     (exists t, probability_thresholds self' !! label = Some (Some t) /\
                float_gt p (Fin 0) = true)).
Proof.
  intros H Hn Hlt.
  destruct (find_probability_thresholds_inv _ _ _ _ _ H)
    as (n' & Hn' & _ & _ & Hall).
  assert (n' = n) by congruence. subst n'.
  destruct (proj1 (Hall label) Hlt) as (cands & _ & Hp & Hth & Hr).
  pose proof (swept_foldl self cands) as [_ Hs].
  set (b := foldl (sweep_step self) best_init cands) in *.
  exists (best_precision b), (best_recall b).
  split; [exact Hp |]. split; [exact Hr |]. rewrite Hth.
  destruct (best_threshold b) as [t|].
  - right. destruct Hs as (i & _ & _ & Hpos & _). eauto.
  - left. destruct Hs as [-> _]. done.
Qed.

Lemma zero_precision_marks_the_unpredicted_label_witness :
  exists self',
    find_probability_thresholds Sklearn.precision_recall_curve
      (init (decimal 7 10) (decimal 5 10))
      [[false]; [false]] [[decimal 8 10]; [decimal 9 10]] = Ok self' /\
    exists p r,
      precisions self' !! 0%nat = Some p /\
      recalls self' !! 0%nat = Some r /\
      ((probability_thresholds self' !! 0%nat = Some None /\
        p = Fin 0 /\ r = Fin 0)
       \/
       (exists t, probability_thresholds self' !! 0%nat = Some (Some t) /\
                  float_gt p (Fin 0) = true)).
Proof.
  eexists. split; [reflexivity |].
  apply (zero_precision_marks_the_unpredicted_label
           Sklearn.precision_recall_curve
           (init (decimal 7 10) (decimal 5 10))
           [[false]; [false]] [[decimal 8 10]; [decimal 9 10]] _ 1 0).
  - reflexivity.
  - reflexivity.
  - lia.
Defined.

Lemma candidates_columns prc yt1 yp1 yt2 yp2 label :
  Np.column label yt1 = Np.column label yt2 ->
  Np.column label yp1 = Np.column label yp2 ->
  candidates prc yt1 yp1 label = candidates prc yt2 yp2 label.
Proof. unfold candidates. by intros -> ->. Qed.

(** X4. Labels do not interact: two calibrations with the same floors, on
    held-out sets that agree on the column of one label (true labels and
    predicted probabilities), record the same threshold, precision and
    recall for that label, whatever the other columns hold. *)
Theorem labels_are_calibrated_independently
    prc self1 self2 yt1 yp1 yt2 yp2 s1 s2 n1 n2 label :
  precision_threshold self1 = precision_threshold self2 ->
  recall_threshold self1 = recall_threshold self2 ->
  find_probability_thresholds prc self1 yt1 yp1 = Ok s1 ->
  find_probability_thresholds prc self2 yt2 yp2 = Ok s2 ->
  total_labels_count s1 = Some n1 -> (label < n1)%nat ->
  total_labels_count s2 = Some n2 -> (label < n2)%nat ->
  Np.column label yt1 = Np.column label yt2 ->
  Np.column label yp1 = Np.column label yp2 ->
  probability_thresholds s1 !! label = probability_thresholds s2 !! label /\
  precisions s1 !! label = precisions s2 !! label /\
  recalls s1 !! label = recalls s2 !! label.
Proof.
  intros HP HR H1 H2 Hn1 Hl1 Hn2 Hl2 Ht Hp.
  destruct (find_probability_thresholds_inv _ _ _ _ _ H1)
    as (m1 & Hm1 & _ & _ & Hall1).
  destruct (find_probability_thresholds_inv _ _ _ _ _ H2)
    as (m2 & Hm2 & _ & _ & Hall2).
  assert (m1 = n1) by congruence. assert (m2 = n2) by congruence. subst.
  destruct (proj1 (Hall1 label) Hl1) as (c1 & Hc1 & Ep1 & Et1 & Er1).
  destruct (proj1 (Hall2 label) Hl2) as (c2 & Hc2 & Ep2 & Et2 & Er2).
  rewrite (candidates_columns prc yt1 yp1 yt2 yp2 label Ht Hp) in Hc1.
  assert (c1 = c2) by congruence. subst c2.
  rewrite Ep1, Et1, Er1, Ep2, Et2, Er2.
  by rewrite (foldl_sweep_step_floors self1 self2).
Qed.

Lemma labels_are_calibrated_independently_witness :
  exists s1 s2,
    find_probability_thresholds Sklearn.precision_recall_curve
      (init (decimal 7 10) (decimal 5 10))
      [[true; false]; [true; true]]
      [[decimal 8 10; decimal 1 10]; [decimal 9 10; decimal 6 10]] = Ok s1 /\
    find_probability_thresholds Sklearn.precision_recall_curve
      (init (decimal 7 10) (decimal 5 10))
      [[true]; [true]] [[decimal 8 10]; [decimal 9 10]] = Ok s2 /\
    probability_thresholds s1 !! 0%nat = probability_thresholds s2 !! 0%nat /\
    precisions s1 !! 0%nat = precisions s2 !! 0%nat /\
    recalls s1 !! 0%nat = recalls s2 !! 0%nat.
Proof.
  eexists _, _. split; [reflexivity |]. split; [reflexivity |].
  apply (labels_are_calibrated_independently Sklearn.precision_recall_curve
           (init (decimal 7 10) (decimal 5 10))
           (init (decimal 7 10) (decimal 5 10))
           [[true; false]; [true; true]]
           [[decimal 8 10; decimal 1 10]; [decimal 9 10; decimal 6 10]]
           [[true]; [true]] [[decimal 8 10]; [decimal 9 10]] _ _ 2 1 0);
    try reflexivity; lia.
Defined.

Lemma float_ge_trans a b c :
  float_ge a b = true -> float_ge b c = true -> float_ge a c = true.
Proof.
  intros H1 H2.
  destruct (float_ge_inv _ _ H1) as (x & y & -> & -> & Hxy).
  destruct (float_ge_inv _ _ H2) as (y' & z & E & -> & Hyz).
  inversion E; subst y'. apply float_ge_Fin. by etrans.
Qed.

Lemma meets_floors_lower strict loose c :
  float_ge (precision_threshold strict) (precision_threshold loose) = true ->
  float_ge (recall_threshold strict) (recall_threshold loose) = true ->
  meets_floors strict c = true -> meets_floors loose c = true.
Proof.
  unfold meets_floors. intros HP HR H.
  apply andb_true_iff in H as [Hp Hr]. apply andb_true_iff.
  split; eapply float_ge_trans; eauto.
Qed.

(** X5. Lowering the floors never loses a label: when a calibration with
    floors (P, R) chooses a threshold for a label, a calibration of the
    same data with floors not above P and R chooses one too, and the
    precision it records is at least the one recorded before. *)
Theorem lowering_the_floors_keeps_the_label
    prc strict loose y_test y_pred s1 s2 label t p :
  float_ge (precision_threshold strict) (precision_threshold loose) = true ->
  float_ge (recall_threshold strict) (recall_threshold loose) = true ->
  find_probability_thresholds prc strict y_test y_pred = Ok s1 ->
  find_probability_thresholds prc loose y_test y_pred = Ok s2 ->
  probability_thresholds s1 !! label = Some (Some t) ->
  precisions s1 !! label = Some p ->
  exists t' p',
    probability_thresholds s2 !! label = Some (Some t') /\
    precisions s2 !! label = Some p' /\
    float_ge p' p = true.
Proof.
  intros HP HR H1 H2 Ht Hp.
  destruct (find_probability_thresholds_inv _ _ _ _ _ H1)
    as (n1 & Hn1 & _ & _ & Hall1).
  destruct (find_probability_thresholds_inv _ _ _ _ _ H2)
    as (n2 & Hn2 & _ & _ & Hall2).
  assert (Hl1 : (label < n1)%nat).
  { destruct (decide (label < n1)%nat) as [|Hge]; [done |].
    rewrite (proj2 (Hall1 label)) in Ht by lia. discriminate. }
  assert (n2 = n1).
  { destruct (label_count_is_the_row_width _ _ _ _ _ _ H1 Hn1)
      as (r1 & rs1 & E1 & ->).
    destruct (label_count_is_the_row_width _ _ _ _ _ _ H2 Hn2)
      as (r2 & rs2 & E2 & ->).
    congruence. }
  subst n2.
  destruct (proj1 (Hall1 label) Hl1) as (c1 & Hc1 & Ep1 & Et1 & _).
  destruct (proj1 (Hall2 label) Hl1) as (c2 & Hc2 & Ep2 & Et2 & _).
  assert (c2 = c1) by congruence. subst c2.
  rewrite Et1 in Ht. inversion Ht as [Et]. rewrite Ep1 in Hp.
  inversion Hp as [Ep]. clear Ht Hp.
  pose proof (swept_foldl strict c1) as [_ Hs1]. rewrite Et in Hs1.
  destruct Hs1 as (i & Hi & Hm & Hpos & _). rewrite Ep in Hi, Hm, Hpos.
  pose proof (meets_floors_lower strict loose _ HP HR Hm) as Hm2.
  pose proof (swept_foldl loose c1) as [_ Hs2].
  rewrite Et2, Ep2.
  destruct (best_threshold (foldl (sweep_step loose) best_init c1)) as [t'|].
  - destruct Hs2 as (j & _ & _ & _ & Hall).
    destruct (Hall i _ Hi Hm2) as [Hge _].
    eexists _, _. split; [reflexivity |]. split; [reflexivity |].
    rewrite Ep. exact Hge.
  - destruct Hs2 as [_ Hnone].
    apply list_elem_of_lookup_2 in Hi.
    specialize (Hnone _ Hi Hm2). unfold prec_of in Hnone. simpl in Hnone.
    congruence.
Qed.

Lemma lowering_the_floors_keeps_the_label_witness :
  exists s1 s2 t p,
    find_probability_thresholds Sklearn.precision_recall_curve
      (init (decimal 7 10) (decimal 5 10))
      [[true]; [false]; [true]]
      [[decimal 8 10]; [decimal 6 10]; [decimal 5 10]] = Ok s1 /\
    find_probability_thresholds Sklearn.precision_recall_curve
      (init (decimal 5 10) (decimal 3 10))
      [[true]; [false]; [true]]
      [[decimal 8 10]; [decimal 6 10]; [decimal 5 10]] = Ok s2 /\
    probability_thresholds s1 !! 0%nat = Some (Some t) /\
    precisions s1 !! 0%nat = Some p /\
    exists t' p',
      probability_thresholds s2 !! 0%nat = Some (Some t') /\
      precisions s2 !! 0%nat = Some p' /\
      float_ge p' p = true.
Proof.
  eexists _, _, _, _.
  split; [vm_compute; reflexivity |]. split; [vm_compute; reflexivity |].
  split; [vm_compute; reflexivity |]. split; [vm_compute; reflexivity |].
  eapply (lowering_the_floors_keeps_the_label Sklearn.precision_recall_curve
            (init (decimal 7 10) (decimal 5 10))
            (init (decimal 5 10) (decimal 3 10))
            [[true]; [false]; [true]]
            [[decimal 8 10]; [decimal 6 10]; [decimal 5 10]] _ _ 0);
    vm_compute; reflexivity.
Defined.

(** *** With the curve of scikit-learn *)

Lemma elem_of_sort_desc x l : x ∈ Sklearn.sort_desc l <-> x ∈ l.
Proof.
  induction l as [|s l IH]; simpl; [done |].
  rewrite SklearnFacts.elem_of_insert_desc, IH, elem_of_cons. tauto.
Qed.

(** An element of a column stands in a row, at the index of the column. *)
Lemma column_elem {A} j (rows : list (list A)) col x :
  Np.column j rows = Ok col -> x ∈ col ->
  exists row, row ∈ rows /\ row !! j = Some x.
Proof.
  unfold Np.column. destruct rows as [|r0 rs]; [discriminate |].
  destruct (forallb _ _); [| discriminate].
  destruct (mapM _ _) as [c|] eqn:E; [| discriminate].
  intros H Hx. inversion H; subst c. apply mapM_Some in E.
  apply list_elem_of_lookup in Hx as [k Hk].
  destruct (Forall2_lookup_r _ _ _ _ _ E Hk) as (row & Hrow & Hj).
  exists row. split; [| exact Hj]. eapply list_elem_of_lookup_2; eauto.
Qed.

(** The thresholds scikit-learn returns are scores it was given, and they
    are numbers. *)
Lemma sklearn_thresholds_are_scores y_true y_score precision recall threshold :
  Sklearn.precision_recall_curve y_true y_score
  = Ok (precision, recall, threshold) ->
  forall i t, threshold !! i = Some t ->
    t ∈ y_score /\ float_ge t t = true.
Proof.
  unfold Sklearn.precision_recall_curve.
  destruct (mapM _ y_score) as [scores|] eqn:Hs; [| discriminate].
  cbv zeta.
  set (pts := Sklearn.clf_curve 0 0 (Sklearn.sort_desc (zip scores y_true))).
  set (k := S (Sklearn.first_full _ pts)).
  intros H. inversion H. subst. clear H.
  intros i t Hi. rewrite list_lookup_fmap in Hi.
  destruct (reverse (take k pts) !! i) as [[[tps fps] thr]|] eqn:Ei;
    [| discriminate].
  simpl in Hi. inversion Hi; subst t. clear Hi.
  split; [| apply float_ge_Fin; reflexivity].
  apply list_elem_of_lookup_2 in Ei. rewrite elem_of_reverse in Ei.
  apply elem_of_take in Ei as (m & Hm & _).
  apply list_elem_of_lookup_2 in Hm.
  destruct (SklearnFacts.clf_curve_scores _ _ _ _ Hm) as [y Hy].
  simpl in Hy. rewrite elem_of_sort_desc in Hy. apply elem_of_zip_l in Hy.
  apply mapM_Some in Hs.
  apply list_elem_of_lookup in Hy as [n Hn].
  destruct (Forall2_lookup_r _ _ _ _ _ Hs Hn) as (p & Hp & Hpq).
  destruct p as [q|]; inversion Hpq; subst q.
  eapply list_elem_of_lookup_2; eauto.
Qed.

(** X6. With the curve of scikit-learn, a threshold that the calibrator
    chooses for a label is a number (not NaN) that the classifier predicted
    as the probability of that label on a held-out sample: the threshold
    is never a value between or beyond the predicted probabilities, so
    that at least one held-out sample reaches it. *)
Theorem chosen_threshold_is_a_predicted_probability
    self y_test y_pred self' label t :
  find_probability_thresholds Sklearn.precision_recall_curve self
    y_test y_pred = Ok self' ->
  probability_thresholds self' !! label = Some (Some t) ->
  exists row, row ∈ y_pred /\ row !! label = Some t /\ float_ge t t = true.
Proof.
  intros H Ht.
  destruct (find_probability_thresholds_inv _ _ _ _ _ H)
    as (n & Hn & _ & _ & Hall).
  assert (Hl : (label < n)%nat).
  { destruct (decide (label < n)%nat) as [|Hge]; [done |].
    rewrite (proj2 (Hall label)) in Ht by lia. discriminate. }
  destruct (proj1 (Hall label) Hl) as (cands & Hc & _ & Et & _).
  rewrite Et in Ht. inversion Ht as [Eb]. clear Ht.
  pose proof (swept_foldl self cands) as [_ Hs]. rewrite Eb in Hs.
  destruct Hs as (i & Hi & _).
  unfold candidates in Hc.
  destruct (Np.column label y_test) as [y_true|]; [| discriminate].
  destruct (Np.column label y_pred) as [y_score|] eqn:Hyp; [| discriminate].
  cbn [mbind result_bind] in Hc.
  destruct (Sklearn.precision_recall_curve y_true y_score)
    as [[[pr rc] th]|] eqn:Hprc; [| discriminate].
  cbn [mbind result_bind] in Hc. inversion Hc; subst cands. clear Hc.
  apply SklearnFacts.zip3_lookup_thre in Hi. cbn [snd] in Hi.
  destruct (sklearn_thresholds_are_scores _ _ _ _ _ Hprc _ _ Hi)
    as [Hin Hfin].
  destruct (column_elem _ _ _ _ Hyp Hin) as (row & Hrow & Hlabel).
  exists row. rewrite Eb. done.
Qed.

Lemma chosen_threshold_is_a_predicted_probability_witness :
  exists self' t,
    find_probability_thresholds Sklearn.precision_recall_curve
      (init (decimal 7 10) (decimal 5 10))
      [[true]; [false]; [true]]
      [[decimal 8 10]; [decimal 6 10]; [decimal 5 10]] = Ok self' /\
    probability_thresholds self' !! 0%nat = Some (Some t) /\
    exists row,
      row ∈ [[decimal 8 10]; [decimal 6 10]; [decimal 5 10]] /\
      row !! 0%nat = Some t /\ float_ge t t = true.
Proof.
  eexists _, _.
  split; [vm_compute; reflexivity |]. split; [vm_compute; reflexivity |].
  eapply (chosen_threshold_is_a_predicted_probability
            (init (decimal 7 10) (decimal 5 10))
            [[true]; [false]; [true]]
            [[decimal 8 10]; [decimal 6 10]; [decimal 5 10]] _ 0);
    vm_compute; reflexivity.
Defined.

End CalibrationCoverage.

(** ** Saving and loading the classifier (mlp.py) *)

Module MlpStoreFacts.
Import Py MlpStore Coverage.

(** X7. A classifier saved with [save_model] is the one [load_model] gives
    back: when the target can be opened for writing and [dill] writes and
    reads the classifier back, the save succeeds, the wrapper remembers the
    target path, only that file holds the written bytes, and any wrapper
    whose load targets the same path (by argument or by its remembered
    path) then holds the saved classifier. *)
Theorem saved_classifier_is_loaded_back {Clf}
    (env : Env Clf) (self : Stored Clf) arg d bytes :
  open_wb env (target self arg) = None ->
  dump env (clf self) = (bytes, Ok tt) ->
  load env bytes = Ok (clf self) ->
  save_model env self arg d
  = (mk_Stored (clf self) (target self arg),
     <[target self arg := bytes]> d, Ok tt) /\
  forall (other : Stored Clf) arg',
    target other arg' = target self arg ->
    load_model env other arg' (<[target self arg := bytes]> d)
    = (mk_Stored (clf self) (target self arg),
       <[target self arg := bytes]> d, Ok tt).
Proof.
  intros Hopen Hdump Hload. unfold target in *.
  assert (Hclf : clf (retarget self arg) = clf self).
  { unfold retarget. destruct arg as [p|]; [| done]. by destruct (str_truthy p). }
  split.
  - unfold save_model. rewrite Hopen, Hclf, Hdump.
    f_equal. f_equal. destruct (retarget self arg) as [c f].
    simpl in *. by subst c.
  - intros other arg' Htarget. unfold load_model.
    rewrite Htarget, lookup_insert_eq, Hload. reflexivity.
Qed.

Lemma saved_classifier_is_loaded_back_witness :
  let env := mk_Env (fun _ => None)
                    (fun c : Byte.byte => ([c], Ok tt))
                    (fun bs => match bs with
                               | [b] => Ok b
                               | _ => Raise (mk_exn ValueError "bad pickle")
                               end) in
  save_model env (mk_Stored Byte.x07 "model.dpkl") (Some "kubeflow.dpkl") ∅
  = (mk_Stored Byte.x07 "kubeflow.dpkl",
     {["kubeflow.dpkl" := [Byte.x07]]}, Ok tt) /\
  load_model env (mk_Stored Byte.x00 "kubeflow.dpkl") None
             {["kubeflow.dpkl" := [Byte.x07]]}
  = (mk_Stored Byte.x07 "kubeflow.dpkl",
     {["kubeflow.dpkl" := [Byte.x07]]}, Ok tt).
Proof.
  intros env.
  destruct (saved_classifier_is_loaded_back env
              (mk_Stored Byte.x07 "model.dpkl") (Some "kubeflow.dpkl") ∅
              [Byte.x07] eq_refl eq_refl eq_refl) as [Hsave Hload].
  split; [exact Hsave |].
  exact (Hload (mk_Stored Byte.x00 "kubeflow.dpkl") None eq_refl).
Defined.

End MlpStoreFacts.

(** ** The universal model (universal_kind_label_model.py) *)

Module UniversalFacts.
Import Py UniversalModel Coverage.

Lemma elem_of_odict_set {V} (d : odict V) k v x :
  x ∈ odict_set d k v -> x = (k, v) \/ x ∈ d.
Proof.
  induction d as [|[k' v'] d IH]; simpl.
  - intros H. apply list_elem_of_singleton in H. by left.
  - case_bool_decide as Hk; rewrite !elem_of_cons; [tauto |].
    intros [-> | Hin]; [tauto |]. destruct (IH Hin); tauto.
Qed.

Lemma odict_set_fresh {V} (d : odict V) k v :
  k ∉ d.*1 -> odict_set d k v = d ++ [(k, v)].
Proof.
  induction d as [|[k' v'] d IH]; simpl; [done |].
  intros H. apply not_elem_of_cons in H as [Hne H].
  case_bool_decide as Hk; [congruence |]. by rewrite IH.
Qed.

Lemma odict_of_from {V} (pairs : odict V) : forall acc,
  NoDup (acc.*1 ++ pairs.*1) ->
  foldl (fun d kv => odict_set d kv.1 kv.2) acc pairs = acc ++ pairs.
Proof.
  induction pairs as [|[k v] pairs IH]; intros acc H; simpl.
  - by rewrite app_nil_r.
  - simpl in H. rewrite odict_set_fresh.
    + rewrite IH; [by rewrite <- app_assoc |].
      rewrite fmap_app, <- app_assoc. exact H.
    + apply NoDup_app in H as (_ & Hdis & _). intros Hin.
      apply (Hdis k Hin). left.
Qed.

(** With distinct keys [dict(pairs)] holds the pairs as they come. *)
Lemma odict_of_NoDup {V} (pairs : odict V) :
  NoDup pairs.*1 -> odict_of pairs = pairs.
Proof. intros H. unfold odict_of. by rewrite odict_of_from. Qed.

Lemma elem_of_odict_of_from {V} (pairs : odict V) : forall acc x,
  x ∈ foldl (fun d kv => odict_set d kv.1 kv.2) acc pairs ->
  x ∈ acc \/ x ∈ pairs.
Proof.
  induction pairs as [|[k v] pairs IH]; intros acc x H; simpl in H.
  - by left.
  - destruct (IH _ _ H) as [Hset | Hin]; [| right; by right].
    destruct (elem_of_odict_set _ _ _ _ Hset) as [-> | Hacc];
      [right; left | by left].
Qed.

Lemma threshold_after_lookup thresholds label label' :
  threshold (threshold_of thresholds label).2 label'
  = threshold thresholds label'.
Proof.
  unfold threshold, threshold_of.
  destruct (thresholds !! label) as [t|] eqn:E; [done |]. simpl.
  destruct (decide (label = label')) as [<- | Hne].
  - rewrite lookup_insert_eq, E. reflexivity.
  - rewrite lookup_insert_ne by done.
    by destruct (thresholds !! label').
Qed.

Lemma zip_keys_NoDup {B} (names : list string) (probs : list B) :
  NoDup names -> NoDup (zip names probs).*1.
Proof.
  intros H. apply (sublist_NoDup _ names); [exact H |]. clear H.
  revert probs. induction names as [|n names IH]; intros [|p probs]; simpl;
    try apply sublist_nil_l.
  constructor. apply IH.
Qed.

(** The loop keeps, in order, the items that are not below their
    threshold; the lookups leave every threshold as it was. *)
Lemma keep_confident_spec items : forall thresholds results,
  (forall label, threshold thresholds label = standard_threshold label) ->
  let out := keep_confident thresholds items results in
  (forall label, threshold out.2 label = standard_threshold label) /\
  (forall x, x ∈ out.1 -> x ∈ results \/ (x ∈ items /\ confident x)) /\
  (NoDup (results.*1 ++ items.*1) ->
   out.1 = results ++ filter confident items).
Proof.
  induction items as [|[label p] items IH]; intros thresholds results Hstd.
  - simpl. split; [done |]. split; [by left |].
    intros _. by rewrite filter_nil, app_nil_r.
  - cbn [keep_confident].
    pose proof (Hstd label) as Hl. unfold threshold in Hl.
    destruct (threshold_of thresholds label) as [t thresholds'] eqn:E.
    simpl in Hl. subst t.
    assert (Hstd' : forall l, threshold thresholds' l = standard_threshold l).
    { intros l. rewrite <- Hstd.
      replace thresholds' with (threshold_of thresholds label).2
        by (by rewrite E).
      apply threshold_after_lookup. }
    destruct (float_lt p (standard_threshold label)) eqn:Hlt.
    + destruct (IH thresholds' results Hstd') as (H1 & H2 & H3).
      split; [exact H1 |]. split.
      * intros x Hx. destruct (H2 x Hx) as [? | [? ?]]; [by left |].
        right. split; [by right | done].
      * intros Hnd. rewrite filter_cons_False.
        -- apply H3. simpl in Hnd. apply NoDup_app in Hnd as (Ha & Hb & Hc).
           apply NoDup_app. split; [done |]. split.
           ++ intros k Hk Hk'. apply (Hb k Hk). by right.
           ++ by inversion Hc.
        -- unfold confident. simpl. congruence.
    + destruct (IH thresholds' (odict_set results label p) Hstd')
        as (H1 & H2 & H3).
      split; [exact H1 |]. split.
      * intros x Hx. destruct (H2 x Hx) as [Hset | [? ?]].
        -- destruct (elem_of_odict_set _ _ _ _ Hset) as [-> | ?];
             [| by left].
           right. split; [left | exact Hlt].
        -- right. split; [by right | done].
      * intros Hnd. simpl in Hnd.
        assert (Hfresh : label ∉ results.*1).
        { apply NoDup_app in Hnd as (_ & Hb & _). intros Hin.
          apply (Hb label Hin). left. }
        rewrite filter_cons_True by exact Hlt.
        rewrite H3; rewrite odict_set_fresh by done.
        -- by rewrite <- app_assoc.
        -- rewrite fmap_app, <- app_assoc. exact Hnd.
Qed.

Lemma init_standard names : standard (init names).
Proof.
  intros label. unfold threshold, threshold_of, standard_threshold, init.
  simpl. case_bool_decide as E.
  - subst label. by rewrite lookup_singleton_eq.
  - by rewrite lookup_singleton_ne.
Qed.

(** The call once the network has answered: the loop, then the record. *)
Lemma predict_issue_labels_eq lg network self org repo title text context
    probs :
  network title text = Ok probs ->
  let raw := odict_of (zip (class_names self) probs) in
  let kept := keep_confident (_prediction_threshold self) raw [] in
  predict_issue_labels lg network self org repo title text context
  = (_ ← logging_info lg "Universal model predictions."
           (record_extra raw (default [] context) kept.1.*1);
     mret (kept.1, mk_UniversalKindLabelModel (class_names self) kept.2)).
Proof.
  intros Hn raw kept. subst raw kept. unfold predict_issue_labels.
  assert (Hctx : match context with
                 | Some ((_ :: _) as c) => c
                 | _ => []
                 end = default [] context) by by destruct context as [[|]|].
  rewrite Hctx, Hn. cbn [lift mbind io_bind app].
  destruct (keep_confident (_prediction_threshold self) _ []).
  unfold record_extra. cbn [fst snd].
  by destruct (logging_info lg _ _) as [t [[]|e]].
Qed.

Lemma overwritten_None {V} lg (extra : odict V) :
  overwritten lg extra = None <->
  forall k, k ∈ extra.*1 -> reserved lg k = false.
Proof.
  unfold overwritten. induction extra as [|[k0 v0] extra IH]; simpl.
  - split; [intros _ k Hk; inversion Hk | done].
  - rewrite filter_cons. case_decide as Hr; simpl.
    + split; [discriminate |].
      intros H. specialize (H k0 ltac:(left)). congruence.
    + apply not_true_is_false in Hr. rewrite IH. split.
      * intros H k Hk. apply elem_of_cons in Hk as [-> | Hk]; auto.
      * intros H k Hk. apply H. by right.
Qed.

Lemma overwritten_Some {V} lg (extra : odict V) k :
  overwritten lg extra = Some k -> k ∈ extra.*1 /\ reserved lg k = true.
Proof.
  unfold overwritten. intros H. apply head_Some_elem_of in H.
  by apply list_elem_of_filter in H as [? ?].
Qed.

Lemma odict_set_keys {V} (d : odict V) k v k' :
  k' ∈ (odict_set d k v).*1 <-> k' = k \/ k' ∈ d.*1.
Proof.
  induction d as [|[k0 v0] d IH]; simpl.
  - rewrite list_elem_of_singleton, elem_of_nil. tauto.
  - case_bool_decide as Hk; simpl; rewrite !elem_of_cons.
    + subst. tauto.
    + rewrite IH. tauto.
Qed.

Lemma update_keys (context : odict value) : forall (extra : odict log_field) k,
  k ∈ (foldl (fun d kv => odict_set d kv.1 (Context kv.2)) extra context).*1
  <-> k ∈ extra.*1 \/ k ∈ context.*1.
Proof.
  induction context as [|[k0 v0] context IH]; intros extra k; simpl.
  - rewrite elem_of_nil. tauto.
  - rewrite IH, odict_set_keys, elem_of_cons. tauto.
Qed.

Lemma record_extra_keys raw context labels k :
  k ∈ (record_extra raw context labels).*1
  <-> k ∈ "predictions" :: "labels" :: context.*1.
Proof.
  unfold record_extra. rewrite odict_set_keys, update_keys. simpl.
  rewrite !elem_of_cons, elem_of_nil. tauto.
Qed.

Lemma logging_info_loggable lg context raw labels :
  loggable lg context ->
  (logging_info lg "Universal model predictions."
     (record_extra raw (default [] context) labels)).2 = Ok tt.
Proof.
  intros Hl. unfold logging_info.
  destruct (info_enabled lg) eqn:Hen; [| reflexivity].
  destruct Hl as [Hoff | Hkeys]; [congruence |].
  assert (E : overwritten lg (record_extra raw (default [] context) labels)
              = None).
  { apply overwritten_None. intros k Hk. apply Hkeys.
    by apply record_extra_keys in Hk. }
  by rewrite E.
Qed.

(** X8. With distinct class names, and when [logging.info] takes the
    record of the prediction, the universal model returns exactly the
    labels whose probability is not below their threshold (0.60 for
    question, 0.52 for any other label), each with its probability and in
    the order of the class names; a class name without probability is left
    out. The lookups in the threshold dictionary leave the thresholds the
    standard ones for the next prediction. *)
Theorem universal_model_keeps_exactly_the_confident_labels
    lg network self org repo title text context probs :
  standard self ->
  NoDup (class_names self) ->
  network title text = Ok probs ->
  loggable lg context ->
  exists self',
    (predict_issue_labels lg network self org repo title text context).2
    = Ok (filter confident (zip (class_names self) probs), self') /\
    class_names self' = class_names self /\
    standard self'.
Proof.
  intros Hstd Hnd Hn Hlog.
  rewrite (predict_issue_labels_eq lg network self org repo title text
             context probs Hn).
  cbv zeta.
  pose proof (logging_info_loggable lg context
                (odict_of (zip (class_names self) probs))
                (keep_confident (_prediction_threshold self)
                   (odict_of (zip (class_names self) probs)) []).1.*1 Hlog)
    as Hinfo.
  destruct (logging_info lg _ _) as [t r]. cbn [snd] in Hinfo. subst r.
  cbn [mbind io_bind mret io_ret snd].
  pose proof (zip_keys_NoDup (class_names self) probs Hnd) as Hkeys.
  rewrite odict_of_NoDup by done.
  destruct (keep_confident_spec (zip (class_names self) probs)
              (_prediction_threshold self) [] Hstd) as (H1 & _ & H3).
  cbv zeta in H1, H3. rewrite H3 by done.
  eexists. split; [reflexivity |]. split; [reflexivity | exact H1].
Qed.

Lemma universal_model_keeps_exactly_the_confident_labels_witness :
  let network := fun (_ : string) (_ : list string) =>
                   Ok [decimal 8 100; decimal 64 100; decimal 55 100] in
  let context := Some [("repo_owner", VStr "kubeflow");
                       ("repo_name", VStr "examples");
                       ("issue_num", VInt 1)] in
  exists self',
    (predict_issue_labels cpython_logging network (init default_class_names)
       "kubeflow" "examples" "hello world" ["hello world"] context).2
    = Ok ([("feature", decimal 64 100)], self') /\
    class_names self' = default_class_names /\
    standard self'.
Proof.
  intros network context.
  destruct (universal_model_keeps_exactly_the_confident_labels
              cpython_logging network (init default_class_names)
              "kubeflow" "examples" "hello world" ["hello world"] context
              [decimal 8 100; decimal 64 100; decimal 55 100])
    as (self' & H & Hn & Hs).
  - apply init_standard.
  - apply (bool_decide_unpack _). vm_compute. exact I.
  - reflexivity.
  - right. intros k Hk. unfold reserved. apply bool_decide_eq_false.
    revert k Hk. apply Forall_forall.
    apply (bool_decide_unpack _). vm_compute. exact I.
  - exists self'. split; [| done]. rewrite H. reflexivity.
Defined.

(** X9. Whatever the class names, every label the universal model returns
    is one of its class names, comes with the probability the network gave
    at that position, and that probability is not below the threshold of
    the label. *)
Theorem universal_model_returns_only_confident_labels
    lg network self org repo title text context results self' :
  standard self ->
  (predict_issue_labels lg network self org repo title text context).2
  = Ok (results, self') ->
  forall label p, (label, p) ∈ results ->
    confident (label, p) /\
    exists probs i,
      network title text = Ok probs /\
      class_names self !! i = Some label /\
      probs !! i = Some p.
Proof.
  intros Hstd H label p Hin.
  destruct (network title text) as [probs|e] eqn:Hn.
  - rewrite (predict_issue_labels_eq _ _ _ _ _ _ _ _ _ Hn) in H.
    cbv zeta in H.
    destruct (logging_info lg _ _) as [t [[]|e]];
      cbn [mbind io_bind mret io_ret snd] in H; [| discriminate].
    inversion H as [[Hres Hself]]. clear H.
    destruct (keep_confident_spec
                (odict_of (zip (class_names self) probs))
                (_prediction_threshold self) [] Hstd) as (_ & H2 & _).
    cbv zeta in H2. rewrite Hres in H2.
    destruct (H2 _ Hin) as [Hnil | [Hraw Hconf]]; [inversion Hnil |].
    split; [exact Hconf |].
    apply elem_of_odict_of_from in Hraw as [Hnil | Hzip]; [inversion Hnil |].
    apply list_elem_of_lookup in Hzip as [i Hi].
    apply lookup_zip_with_Some in Hi as (l & q & E & Hl & Hq).
    inversion E; subst. eauto.
  - unfold predict_issue_labels in H. rewrite Hn in H. discriminate.
Qed.

Lemma universal_model_returns_only_confident_labels_witness :
  let network := fun (_ : string) (_ : list string) =>
                   Ok [decimal 30 100; decimal 90 100] in
  let self := init ["bug"; "bug"] in
  exists self',
    (predict_issue_labels cpython_logging network self
       "kubeflow" "examples" "title" [] None).2
    = Ok ([("bug", decimal 90 100)], self') /\
    confident ("bug", decimal 90 100).
Proof.
  intros network self. eexists. split; [reflexivity |].
  eapply (universal_model_returns_only_confident_labels
            cpython_logging network self "kubeflow" "examples" "title" []
            None).
  - apply init_standard.
  - reflexivity.
  - left.
Defined.

Lemma odict_get_set {V} (d : odict V) k v k' :
  odict_get (odict_set d k v) k'
  = if bool_decide (k = k') then Some v else odict_get d k'.
Proof.
  induction d as [|[k0 v0] d IH]; simpl.
  - reflexivity.
  - destruct (bool_decide_reflect (k0 = k)) as [-> | Hne]; simpl.
    + by case_bool_decide.
    + rewrite IH.
      destruct (bool_decide_reflect (k0 = k')) as [-> | Hne'];
        [| reflexivity].
      by rewrite bool_decide_eq_false_2 by congruence.
Qed.

Lemma odict_get_None {V} (d : odict V) k : k ∉ d.*1 -> odict_get d k = None.
Proof.
  induction d as [|[k0 v0] d IH]; simpl; [done |].
  intros Hn. apply not_elem_of_cons in Hn as [Hne Hn].
  rewrite bool_decide_eq_false_2 by congruence. by apply IH.
Qed.

(** [extra.update(context)], key by key. *)
Lemma odict_get_update (context : odict value) : forall extra k,
  NoDup context.*1 ->
  odict_get (foldl (fun d kv => odict_set d kv.1 (Context kv.2))
                   extra context) k
  = match odict_get context k with
    | Some v => Some (Context v)
    | None => odict_get extra k
    end.
Proof.
  induction context as [|[k0 v0] context IH]; intros extra k Hnd;
    [reflexivity |].
  apply NoDup_cons in Hnd as [Hfresh Hnd]. cbn [foldl fst snd odict_get].
  rewrite IH by done. rewrite odict_get_set.
  destruct (bool_decide_reflect (k0 = k)) as [-> | Hne]; [| reflexivity].
  by rewrite odict_get_None.
Qed.

(** X10. When the network answers and the logger is enabled for INFO, the
    universal model hands [logging.info] one record. Its [extra] holds
    exactly the keys "predictions" and "labels" and the keys of the
    context; whatever the context holds, it carries under "labels" the
    labels that are to be returned; an item of the context is carried
    under its key unless the key is "labels", so that a context with the
    key "predictions" masks the probabilities of the network, which the
    record carries under that key otherwise. When none of these keys is
    reserved by [logging], the record is written, once, and the labels are
    returned; otherwise the call raises [KeyError] for the first reserved
    key, no record is written and nothing is returned. *)
Theorem log_record_always_carries_the_returned_labels
    lg network self org repo title text context probs :
  network title text = Ok probs ->
  NoDup (default [] context).*1 ->
  info_enabled lg = true ->
  let run :=
    predict_issue_labels lg network self org repo title text context in
  exists results self' extra,
    odict_get extra "labels" = Some (Labels results.*1) /\
    odict_get extra "predictions"
    = Some (match odict_get (default [] context) "predictions" with
            | Some v => Context v
            | None => Predictions (odict_of (zip (class_names self) probs))
            end) /\
    (forall k v, k <> "labels" ->
                 odict_get (default [] context) k = Some v ->
                 odict_get extra k = Some (Context v)) /\
    (forall k, k ∈ extra.*1
               <-> k ∈ "predictions" :: "labels" :: (default [] context).*1) /\
    match overwritten lg extra with
    | None =>
        run = ([LogInfo "Universal model predictions." extra],
               Ok (results, self'))
    | Some k =>
        reserved lg k = true /\
        run = ([], Raise (mk_exn KeyError
                            ("Attempt to overwrite '" +:+ k
                             +:+ "' in LogRecord")))
    end.
Proof.
  intros Hn Hnd Hen run. subst run.
  rewrite (predict_issue_labels_eq lg network self org repo title text
             context probs Hn).
  cbv zeta.
  destruct (keep_confident (_prediction_threshold self) _ [])
    as [results thresholds]. cbn [fst snd].
  exists results, (mk_UniversalKindLabelModel (class_names self) thresholds),
         (record_extra (odict_of (zip (class_names self) probs))
            (default [] context) results.*1).
  split; [| split; [| split; [| split]]].
  - unfold record_extra. rewrite odict_get_set.
    by rewrite bool_decide_eq_true_2.
  - unfold record_extra.
    rewrite odict_get_set, bool_decide_eq_false_2 by done.
    rewrite odict_get_update by done.
    by destruct (odict_get (default [] context) "predictions").
  - intros k v Hk Hget. unfold record_extra.
    rewrite odict_get_set, bool_decide_eq_false_2 by congruence.
    rewrite odict_get_update by done. by rewrite Hget.
  - intros k. apply record_extra_keys.
  - unfold logging_info. rewrite Hen.
    destruct (overwritten lg _) as [k|] eqn:Ho.
    + split; [by apply overwritten_Some in Ho as [_ ?] | reflexivity].
    + reflexivity.
Qed.

Lemma log_record_always_carries_the_returned_labels_witness :
  let network := fun (_ : string) (_ : list string) =>
                   Ok [decimal 8 100; decimal 64 100; decimal 28 100] in
  let context := Some [("predictions", VStr "masked"); ("labels", VNone)] in
  let run := predict_issue_labels cpython_logging network
               (init default_class_names)
               "kubeflow" "examples" "hello world" ["hello world"] context in
  exists results self' extra,
    odict_get extra "labels" = Some (Labels results.*1) /\
    odict_get extra "predictions"
    = Some (match odict_get (default [] context) "predictions" with
            | Some v => Context v
            | None =>
                Predictions
                  (odict_of (zip (class_names (init default_class_names))
                                 [decimal 8 100; decimal 64 100;
                                  decimal 28 100]))
            end) /\
    (forall k v, k <> "labels" ->
                 odict_get (default [] context) k = Some v ->
                 odict_get extra k = Some (Context v)) /\
    (forall k, k ∈ extra.*1
               <-> k ∈ "predictions" :: "labels" :: (default [] context).*1) /\
    match overwritten cpython_logging extra with
    | None =>
        run = ([LogInfo "Universal model predictions." extra],
               Ok (results, self'))
    | Some k =>
        reserved cpython_logging k = true /\
        run = ([], Raise (mk_exn KeyError
                            ("Attempt to overwrite '" +:+ k
                             +:+ "' in LogRecord")))
    end.
Proof.
  intros network context.
  apply (log_record_always_carries_the_returned_labels cpython_logging
           network (init default_class_names) "kubeflow" "examples"
           "hello world" ["hello world"] context
           [decimal 8 100; decimal 64 100; decimal 28 100]).
  - reflexivity.
  - apply (bool_decide_unpack _). vm_compute. exact I.
  - reflexivity.
Defined.

(** A context with the key "name": [logging.info] raises [KeyError], no
    record is written and no label is returned. *)
Lemma reserved_context_key_raises_KeyError :
  let network := fun (_ : string) (_ : list string) =>
                   Ok [decimal 8 100; decimal 64 100; decimal 28 100] in
  predict_issue_labels cpython_logging network (init default_class_names)
    "kubeflow" "examples" "hello world" ["hello world"]
    (Some [("name", VStr "kubeflow")])
  = ([], Raise (mk_exn KeyError "Attempt to overwrite 'name' in LogRecord")).
Proof. reflexivity. Qed.

End UniversalFacts.

(** ** Overrides, keys and end-to-end dispatch (issue_label_predictor.py) *)

Module PredictorCoverage.
Import Py Predictor Routing PredictorFacts.

Lemma string_length_app s1 s2 :
  String.length (s1 +:+ s2) = (String.length s1 + String.length s2)%nat.
Proof. induction s1 as [|c s1 IH]; simpl; [done | by rewrite IH]. Qed.

Lemma string_app_assoc s1 s2 s3 : (s1 +:+ s2) +:+ s3 = s1 +:+ (s2 +:+ s3).
Proof.
  induction s1 as [|c s1 IH]; [done |].
  change (String c ((s1 +:+ s2) +:+ s3) = String c (s1 +:+ (s2 +:+ s3))).
  by f_equal.
Qed.

Lemma string_app_inj_r s1 s2 t : s1 +:+ t = s2 +:+ t -> s1 = s2.
Proof.
  revert s2. induction s1 as [|c s1 IH]; intros [|c' s2] H; simpl in H.
  - done.
  - apply (f_equal String.length) in H.
    rewrite !string_length_app in H. simpl in H. lia.
  - apply (f_equal String.length) in H.
    rewrite !string_length_app in H. simpl in H. lia.
  - inversion H as [[Hc Hs]]. f_equal. by apply IH.
Qed.

(** The part of a string before its first slash, and the part after it. *)
Lemma split_at_first_slash o1 o2 r1 r2 :
  has_slash o1 = false -> has_slash o2 = false ->
  o1 +:+ "/" +:+ r1 = o2 +:+ "/" +:+ r2 -> o1 = o2 /\ r1 = r2.
Proof.
  revert o2. induction o1 as [|c o1 IH]; intros [|c' o2] H1 H2 H;
    simpl in *.
  - by inversion H.
  - inversion H; subst c'. discriminate.
  - inversion H; subst c. discriminate.
  - inversion H as [[Hc Hs]]. subst c'.
    destruct (Ascii.eqb c "/"); [discriminate |].
    destruct (IH o2 H1 H2 Hs) as [-> ->]. done.
Qed.

(** X11. The keys of the registry do not collide: for organisation names
    without a slash, the key of a repository model determines the
    organisation and the repository, and it is never the key of an
    organisation model. *)
Theorem repository_keys_do_not_collide o1 r1 o2 r2 :
  has_slash o1 = false -> has_slash o2 = false ->
  str_truthy r1 = true -> str_truthy r2 = true ->
  (_combined_model_name (VStr o1) (VStr r1)
   = _combined_model_name (VStr o2) (VStr r2) -> o1 = o2 /\ r1 = r2) /\
  _combined_model_name (VStr o1) (VStr r1)
  <> _combined_model_name (VStr o2) VNone.
Proof.
  intros H1 H2 Hr1 Hr2.
  unfold _combined_model_name. simpl. rewrite Hr1, Hr2. split.
  - intros H.
    assert (H' : (o1 +:+ "/" +:+ r1) +:+ "_combined"
                 = (o2 +:+ "/" +:+ r2) +:+ "_combined").
    { rewrite !string_app_assoc. exact H. }
    apply string_app_inj_r in H'.
    by apply split_at_first_slash.
  - intros H.
    assert (H' : (o1 +:+ "/" +:+ r1) +:+ "_combined" = o2 +:+ "_combined").
    { rewrite !string_app_assoc. exact H. }
    apply string_app_inj_r in H'.
    pose proof (has_slash_app o1 r1) as Hs. rewrite H' in Hs. congruence.
Qed.

Lemma repository_keys_do_not_collide_witness :
  (_combined_model_name (VStr "kubeflow") (VStr "examples")
   = _combined_model_name (VStr "kubeflow") (VStr "examples") ->
   "kubeflow" = "kubeflow" /\ "examples" = "examples") /\
  _combined_model_name (VStr "kubeflow") (VStr "examples")
  <> _combined_model_name (VStr "kubeflow") VNone.
Proof.
  apply (repository_keys_do_not_collide
           "kubeflow" "examples" "kubeflow" "examples"); reflexivity.
Defined.

Lemma predict_labels_for_data_unknown models model_name org repo title body :
  (forall m, models_lookup models model_name <> Ok (Some m)) ->
  predict_labels_for_data models model_name org repo title body
  = ([], match models_lookup models model_name with
         | Ok _ => Raise (mk_exn ValueError
                            ("No model named " +:+ py_str model_name))
         | Raise e => Raise e
         end).
Proof.
  intros Hunknown. unfold predict_labels_for_data.
  destruct (models_lookup models model_name) as [[m|]|e]; try reflexivity.
  by destruct (Hunknown m).
Qed.

Lemma invokes_model_app t1 t2 :
  invokes_model (t1 ++ t2) = invokes_model t1 || invokes_model t2.
Proof. unfold invokes_model. apply existsb_app. Qed.

(** The trace and the outcome of the issue path, for the model name it
    settles on and the issue text it fetched. *)
Lemma predict_labels_for_issue_fetched
    env models org repo issue_number model_name data :
  get_issue_text env issue_number org repo = Ok data ->
  let name := if truthy model_name then model_name
              else VStr (resolve_model_name models org repo) in
  let run := predict_labels_for_data models name org repo
               (dict_get data "title") (VList [dict_get data "body"]) in
  exists warnings,
    invokes_model warnings = false /\
    predict_labels_for_issue env models org repo issue_number model_name
    = (LogInfo ("Predict labels for " +:+ py_str org +:+ "/"
                +:+ py_str repo +:+ "#" +:+ py_str issue_number
                +:+ " using model " +:+ py_str name)
         :: GetIssueText issue_number org repo :: warnings ++ run.1,
       run.2).
Proof.
  intros Hdata name run. subst name run.
  set (w := LogWarning ("Got empty title for " +:+ py_str org +:+ "/"
                        +:+ py_str repo +:+ "#" +:+ py_str issue_number)).
  exists ((if truthy (dict_get data "title") then [] else [w])
          ++ (if truthy (dict_get data "body") then [] else [w])).
  unfold predict_labels_for_issue.
  cbn [mbind io_bind emit lift app]. rewrite Hdata.
  destruct (predict_labels_for_data models _ org repo _ _) as [t r].
  destruct (truthy (dict_get data "title")),
           (truthy (dict_get data "body"));
    simpl; (split; reflexivity).
Qed.

(** X12. A model name that is not registered is only found out after the
    issue has been fetched: with a truthy override that is not a key of the
    registry, the issue path asks for the issue text and invokes no model;
    when the text was fetched it raises [ValueError] naming the model, or
    the [TypeError] of the lookup when the name is a list, which cannot be
    hashed; otherwise it raises the error of the fetch. *)
Theorem unknown_model_is_found_after_the_fetch
    env models org repo issue_number model_name :
  truthy model_name = true ->
  (forall m, models_lookup models model_name <> Ok (Some m)) ->
  let run :=
    predict_labels_for_issue env models org repo issue_number model_name in
  invokes_model run.1 = false /\
  GetIssueText issue_number org repo ∈ run.1 /\
  run.2 = match get_issue_text env issue_number org repo with
          | Ok _ =>
              match models_lookup models model_name with
              | Ok _ => Raise (mk_exn ValueError
                                 ("No model named " +:+ py_str model_name))
              | Raise e => Raise e
              end
          | Raise e => Raise e
          end.
Proof.
  intros Htruthy Hunknown run.
  destruct (get_issue_text env issue_number org repo) as [data|e] eqn:Hdata.
  - destruct (predict_labels_for_issue_fetched env models org repo
                issue_number model_name data Hdata) as (w & Hw & E).
    rewrite Htruthy in E.
    rewrite predict_labels_for_data_unknown in E by done.
    subst run. rewrite E. cbn [fst snd].
    split; [| split; [| reflexivity]].
    + match goal with
      | |- invokes_model (?a :: ?b :: ?l) = _ =>
          change (invokes_model ([a; b] ++ l) = false)
      end.
      rewrite !invokes_model_app, Hw. reflexivity.
    + right. left.
  - subst run. unfold predict_labels_for_issue.
    cbn [mbind io_bind emit lift app]. rewrite Hdata. cbn [fst snd].
    split; [reflexivity |]. split; [right; left | reflexivity].
Qed.

Lemma unknown_model_is_found_after_the_fetch_witness :
  let m := mk_Model "UniversalKindLabelModel" (fun _ _ _ _ => Ok ∅) in
  let env := mk_Env m (fun _ => m) (fun _ => m) (fun _ _ _ => Ok ∅) in
  let run :=
    predict_labels_for_issue env (_load_models env) (VStr "kubeflow")
      (VStr "examples") (VInt 1) (VStr "kubeflow/examples") in
  invokes_model run.1 = false /\
  GetIssueText (VInt 1) (VStr "kubeflow") (VStr "examples") ∈ run.1 /\
  run.2 = Raise (mk_exn ValueError "No model named kubeflow/examples").
Proof.
  intros m env.
  apply (unknown_model_is_found_after_the_fetch env (_load_models env)
           (VStr "kubeflow") (VStr "examples") (VInt 1)
           (VStr "kubeflow/examples")); [reflexivity |].
  intros m'. discriminate.
Defined.

(** A list given as the model name: the issue is fetched, and the lookup
    raises [TypeError]. *)
Lemma list_override_raises_TypeError :
  let m := mk_Model "UniversalKindLabelModel" (fun _ _ _ _ => Ok ∅) in
  let env := mk_Env m (fun _ => m) (fun _ => m) (fun _ _ _ => Ok ∅) in
  predict_labels_for_issue env (_load_models env) (VStr "kubeflow")
    (VStr "examples") (VInt 1) (VList [VStr "universal"])
  = ([LogInfo
        "Predict labels for kubeflow/examples#1 using model ['universal']";
      GetIssueText (VInt 1) (VStr "kubeflow") (VStr "examples");
      LogWarning "Got empty title for kubeflow/examples#1";
      LogWarning "Got empty title for kubeflow/examples#1"],
     Raise (mk_exn TypeError "unhashable type: 'list'")).
Proof. reflexivity. Qed.

Lemma predict_labels_for_data_known models name m org repo title body :
  models_lookup models name = Ok (Some m) ->
  predict_labels_for_data models name org repo title body
  = ([LogInfo ("Generating predictions for title=" +:+ py_str title
               +:+ " text=" +:+ py_str body +:+ " usingmodel: "
               +:+ py_str name +:+ " class:" +:+ model_class m);
      ModelInvoked (py_str name) org repo title body],
     predict_issue_labels m org repo title body).
Proof.
  intros Hm. unfold predict_labels_for_data. rewrite Hm.
  cbn [mbind io_bind emit lift app]. reflexivity.
Qed.

(** The issue path invokes a model only as its last action, on the text it
    fetched, and the model is the one registered under the name the path
    settled on. *)
Lemma issue_path_invokes_inv env models org repo issue_number model_name :
  let run :=
    predict_labels_for_issue env models org repo issue_number model_name in
  let name := if truthy model_name then model_name
              else VStr (resolve_model_name models org repo) in
  invokes_model run.1 = true ->
  exists text m t,
    get_issue_text env issue_number org repo = Ok text /\
    models_lookup models name = Ok (Some m) /\
    run.1 = t ++ [ModelInvoked (py_str name) org repo
                    (dict_get text "title")
                    (VList [dict_get text "body"])] /\
    invokes_model t = false /\
    run.2 = predict_issue_labels m org repo (dict_get text "title")
              (VList [dict_get text "body"]).
Proof.
  intros run name Hrun.
  destruct (get_issue_text env issue_number org repo) as [text|e] eqn:Htext.
  - destruct (predict_labels_for_issue_fetched env models org repo
                issue_number model_name text Htext) as (w & Hw & E).
    fold name in E. fold run in E.
    destruct (models_lookup models name) as [[m|]|e] eqn:Hm.
    + rewrite (predict_labels_for_data_known _ _ m) in E by done.
      cbn [fst snd] in E. exists text, m.
      eexists (_ :: _ :: w ++ [_]).
      split; [reflexivity |]. split; [reflexivity |].
      rewrite E. cbn [fst snd]. split.
      { cbn [app]. by rewrite <- app_assoc. }
      split; [| reflexivity].
      match goal with
      | |- invokes_model (?a :: ?b :: ?l) = _ =>
          change (invokes_model ([a; b] ++ l) = false)
      end.
      rewrite !invokes_model_app, Hw. reflexivity.
    + rewrite predict_labels_for_data_unknown in E
        by (intros m; rewrite Hm; discriminate).
      rewrite E in Hrun. cbn [fst snd] in Hrun.
      match type of Hrun with
      | invokes_model (?a :: ?b :: ?l) = _ =>
          change (invokes_model ([a; b] ++ l) = true) in Hrun
      end.
      rewrite !invokes_model_app, Hw in Hrun. discriminate.
    + rewrite predict_labels_for_data_unknown in E
        by (intros m; rewrite Hm; discriminate).
      rewrite E in Hrun. cbn [fst snd] in Hrun.
      match type of Hrun with
      | invokes_model (?a :: ?b :: ?l) = _ =>
          change (invokes_model ([a; b] ++ l) = true) in Hrun
      end.
      rewrite !invokes_model_app, Hw in Hrun. discriminate.
  - subst run. unfold predict_labels_for_issue in Hrun.
    cbn [mbind io_bind emit lift app] in Hrun. rewrite Htext in Hrun.
    discriminate.
Qed.

(** X13. Whatever the payload, [predict] reaches a model only through the
    issue path: when a model is invoked, the payload holds the three issue
    fields and not all three text fields, the issue text was fetched, the
    model is the one registered under the override if the payload gives a
    truthy one and under the resolved name otherwise, it is invoked once,
    as the last action, on the fetched title and body, and its outcome is
    the outcome of [predict]. *)
Theorem model_is_reached_only_through_the_issue_path env models data :
  let run := predict env models data in
  let org := payload_get data "repo_owner" in
  let repo := payload_get data "repo_name" in
  let override := payload_get data "model_name" in
  let name := if truthy override then override
              else VStr (resolve_model_name models org repo) in
  invokes_model run.1 = true ->
  _dict_has_keys data text_keys = false /\
  _dict_has_keys data issue_keys = true /\
  exists text m t,
    get_issue_text env (payload_get data "issue_num") org repo = Ok text /\
    models_lookup models name = Ok (Some m) /\
    run.1 = t ++ [ModelInvoked (py_str name) org repo
                    (dict_get text "title")
                    (VList [dict_get text "body"])] /\
    invokes_model t = false /\
    run.2 = predict_issue_labels m org repo (dict_get text "title")
              (VList [dict_get text "body"]).
Proof.
  intros run org repo override name Hrun.
  destruct (_dict_has_keys data text_keys) eqn:Ht.
  { subst run. rewrite text_payload_raises_TypeError in Hrun by done.
    discriminate. }
  destruct (_dict_has_keys data issue_keys) eqn:Hi.
  - split; [reflexivity |]. split; [reflexivity |].
    subst run. rewrite issue_payload_is_routed in Hrun |- * by done.
    by apply issue_path_invokes_inv.
  - destruct (incomplete_payload_is_rejected env models data Ht Hi)
      as [_ Hno].
    subst run. rewrite Hno in Hrun. discriminate.
Qed.

Lemma model_is_reached_only_through_the_issue_path_witness :
  let m := mk_Model "CombinedLabelModels" (fun _ _ _ _ => Ok ∅) in
  let env :=
    mk_Env m (fun _ => m) (fun _ => m)
      (fun _ _ _ => Ok (<["title" := VStr "It fails"]>
                          (<["body" := VStr "Always."]> ∅))) in
  let data := [("repo_owner", VStr "kubeflow");
               ("repo_name", VStr "examples");
               ("issue_num", VInt 1)] in
  let run := predict env (_load_models env) data in
  _dict_has_keys data text_keys = false /\
  _dict_has_keys data issue_keys = true /\
  exists text m' t,
    get_issue_text env (VInt 1) (VStr "kubeflow") (VStr "examples")
    = Ok text /\
    models_lookup (_load_models env) (VStr "kubeflow_combined")
    = Ok (Some m') /\
    run.1 = t ++ [ModelInvoked "kubeflow_combined" (VStr "kubeflow")
                    (VStr "examples") (dict_get text "title")
                    (VList [dict_get text "body"])] /\
    invokes_model t = false /\
    run.2 = predict_issue_labels m' (VStr "kubeflow") (VStr "examples")
              (dict_get text "title") (VList [dict_get text "body"]).
Proof.
  intros m env data run.
  apply (model_is_reached_only_through_the_issue_path env
           (_load_models env) data).
  reflexivity.
Defined.

End PredictorCoverage.

(** ** The worker: the labels it applies, the logs (worker.py) *)

Module WorkerCoverage.
Import Py Worker Labelling Consumption WorkerFacts.

(** *** Traces of composed computations *)

Lemma io_bind_trace {E A B} (m : io E A) (k : A -> io E B) :
  (m ≫= k).1 = m.1 ++ match m.2 with Ok a => (k a).1 | Raise _ => [] end.
Proof.
  destruct m as [t [a|e]]; cbn [mbind io_bind fst snd].
  - by destruct (k a).
  - by rewrite app_nil_r.
Qed.

Lemma io_bind_result {E A B} (m : io E A) (k : A -> io E B) :
  (m ≫= k).2 = match m.2 with Ok a => (k a).2 | Raise e => Raise e end.
Proof.
  destruct m as [t [a|e]]; cbn [mbind io_bind fst snd]; [| done].
  by destruct (k a).
Qed.

Lemma io_bind_Ok_inv {E A B} (m : io E A) (k : A -> io E B) b :
  (m ≫= k).2 = Ok b ->
  exists a, m.2 = Ok a /\ (k a).2 = Ok b /\ (m ≫= k).1 = m.1 ++ (k a).1.
Proof.
  rewrite io_bind_result, io_bind_trace.
  destruct (m.2) as [a|e]; [| discriminate]. eauto.
Qed.

Lemma quiet_bind {E A B} (P : E -> bool) (m : io E A) (k : A -> io E B) :
  quiet P m -> (forall a, quiet P (k a)) -> quiet P (m ≫= k).
Proof.
  unfold quiet. intros Hm Hk. rewrite io_bind_trace, existsb_app, Hm.
  destruct (m.2); [apply Hk | reflexivity].
Qed.

Lemma quiet_lift {E A} (P : E -> bool) (r : result A) : quiet P (lift r).
Proof. reflexivity. Qed.

Lemma quiet_ret {E A} (P : E -> bool) (a : A) : quiet P (mret a : io E A).
Proof. reflexivity. Qed.

Lemma quiet_raise {E A} (P : E -> bool) c msg :
  quiet P (raise c msg : io E A).
Proof. reflexivity. Qed.

Lemma quiet_emit {E} (P : E -> bool) e : P e = false -> quiet P (emit e).
Proof. unfold quiet. simpl. by intros ->. Qed.

(** A computation that shows an event of the kind [P] after a quiet start
    got past the start. *)
Lemma loud_bind_inv {E A B} (P : E -> bool) (m : io E A) (k : A -> io E B) :
  quiet P m -> existsb P (m ≫= k).1 = true ->
  exists a, m.2 = Ok a /\ existsb P (k a).1 = true.
Proof.
  unfold quiet. intros Hm. rewrite io_bind_trace, existsb_app, Hm.
  destruct (m.2) as [a|e]; [eauto | discriminate].
Qed.

Ltac quiet :=
  repeat first
    [ apply quiet_lift
    | apply quiet_ret
    | apply quiet_raise
    | apply quiet_emit; reflexivity
    | apply quiet_bind; [| intros ?]
    | match goal with
      | |- quiet _ (match ?x with _ => _ end) => destruct x
      end ].

Lemma quiet_load_yaml env (P : event -> bool) self owner name :
  quiet P (load_yaml env self owner name).
Proof. unfold load_yaml. quiet. Qed.

(** *** The labels that are applied *)

Lemma filter_specified_labels_eq env owner name predictions :
  filter_specified_labels env owner name predictions =
  match get_yaml env owner name with
  | Raise e => ([], Raise e)
  | Ok yaml =>
      match allow_list yaml with
      | Some allowed =>
          ([], Ok (select_specified allowed
                     (zip (labels predictions) (probabilities predictions))))
      | None =>
          ([LogWarning ("YAML file does not contain `predicted-labels`, "
              +:+ "bot will predict all labels with enough confidence")],
           Ok (labels predictions, probabilities predictions))
      end
  end.
Proof.
  unfold filter_specified_labels, allow_list.
  destruct (get_yaml env owner name) as [yaml|e]; [| reflexivity].
  cbn [lift mbind io_bind app].
  by destruct (yaml ≫= (fun y => y !! "predicted-labels")).
Qed.

Lemma zip_fst_sublist {A B} (l : list A) (k : list B) :
  (zip l k).*1 `sublist_of` l.
Proof.
  revert k. induction l as [|x l IH]; intros [|y k]; simpl;
    try apply sublist_nil_l.
  apply sublist_skip, IH.
Qed.

Lemma select_specified_names allowed l k :
  (select_specified allowed (zip l k)).1 `sublist_of` l /\
  Forall (fun n => n ∈ allowed) (select_specified allowed (zip l k)).1.
Proof.
  rewrite select_specified_filter. cbn [fst]. split.
  - trans ((zip l k).*1); [| apply zip_fst_sublist].
    apply fmap_sublist, sublist_filter.
  - apply Forall_fmap, Forall_forall. intros [n p] Hin.
    by apply list_elem_of_filter in Hin as [Hn _].
Qed.

(** The labels and probabilities that [add_labels_to_issue] goes on with. *)
Lemma add_labels_to_issue_chosen env self iid owner name num predictions :
  exists t0 chosen,
    (forall e, e ∈ t0 -> writes_to_github e = false /\
                         is_performance_log e = false) /\
    (forall names probas, chosen = Ok (names, probas) ->
       names `sublist_of` labels predictions /\
       zip names probas
         `sublist_of` zip (labels predictions) (probabilities predictions) /\
       (names <> [] ->
        exists yaml, get_yaml env owner name = Ok yaml /\
          forall allowed, allow_list yaml = Some allowed ->
                          Forall (fun n => n ∈ allowed) names)) /\
    add_labels_to_issue env self iid owner name num predictions =
    match chosen with
    | Raise e => (t0, Raise e)
    | Ok (names, probas) =>
        match get_issue_handle env iid owner name num with
        | Raise e => (t0, Raise e)
        | Ok _ =>
            match names with
            | _ :: _ =>
                match issue_add_labels env names with
                | Raise e => (t0 ++ [AddLabels names], Raise e)
                | Ok _ =>
                    let c := Applying names probas (app_url self) owner name in
                    (t0 ++ [AddLabels names;
                            LogInfo ("Add `" +:+ join "`, `" names
                                     +:+ "` to the issue # " +:+ num);
                            CreateComment c],
                     issue_create_comment env c)
                end
            | [] =>
                let c := NotConfident (app_url self) owner name in
                (t0 ++ [LogWarning
                          ("Not confident enough to label this issue: # "
                           +:+ num);
                        CreateComment c],
                 issue_create_comment env c)
            end
        end
    end.
Proof.
  unfold add_labels_to_issue.
  destruct (labels predictions) as [|l0 ls] eqn:Hlabels.
  - exists [], (Ok ([], [])). split; [intros e He; inversion He |]. split.
    + intros names probas H. inversion H; subst.
      split; [constructor |]. split; [apply sublist_nil_l | done].
    + cbn [mret io_ret mbind io_bind app lift emit].
      destruct (get_issue_handle env iid owner name num) as [[]|e];
        [| reflexivity].
      cbn [mret io_ret mbind io_bind app lift emit].
      by destruct (issue_create_comment env _).
  - rewrite filter_specified_labels_eq.
    destruct (get_yaml env owner name) as [yaml|e] eqn:Hyaml.
    + destruct (allow_list yaml) as [allowed|] eqn:Hallow.
      * exists [], (Ok (select_specified allowed
                         (zip (labels predictions)
                              (probabilities predictions)))).
        split; [intros e He; inversion He |]. split.
        -- intros names probas H. inversion H as [E]. clear H.
           rewrite <- Hlabels.
           destruct (select_specified_names allowed (labels predictions)
                       (probabilities predictions)) as [Hsub Hall].
           rewrite E in Hsub, Hall. cbn [fst] in Hsub, Hall.
           split; [exact Hsub |]. split.
           ++ rewrite select_specified_filter in E. inversion E; subst.
              rewrite zip_fst_snd. apply sublist_filter.
           ++ intros _. exists yaml. split; [done |].
              intros allowed' Ha. rewrite Hallow in Ha.
              inversion Ha; subst. exact Hall.
        -- destruct (select_specified allowed _) as [names probas].
           cbn [mret io_ret mbind io_bind app lift emit].
           destruct (get_issue_handle env iid owner name num) as [[]|e];
             [| reflexivity].
           destruct names as [|n ns];
             cbn [mret io_ret mbind io_bind app lift emit].
           ++ by destruct (issue_create_comment env _).
           ++ destruct (issue_add_labels env (n :: ns)) as [[]|e];
                [| reflexivity].
              cbn [mret io_ret mbind io_bind app lift emit].
              by destruct (issue_create_comment env _).
      * exists [LogWarning
                  ("YAML file does not contain `predicted-labels`, "
                   +:+ "bot will predict all labels with enough confidence")],
               (Ok (labels predictions, probabilities predictions)).
        split.
        { intros e He. apply list_elem_of_singleton in He. subst e.
          split; reflexivity. }
        split.
        -- intros names probas H. inversion H; subst.
           rewrite <- Hlabels.
           split; [reflexivity |]. split; [reflexivity |].
           intros _. exists yaml. split; [done |].
           intros allowed Ha. congruence.
        -- rewrite Hlabels.
           cbn [mret io_ret mbind io_bind app lift emit].
           destruct (get_issue_handle env iid owner name num) as [[]|e];
             [| reflexivity].
           cbn [mret io_ret mbind io_bind app lift emit].
           destruct (issue_add_labels env (l0 :: ls)) as [[]|e];
             [| reflexivity].
           cbn [mret io_ret mbind io_bind app lift emit].
           by destruct (issue_create_comment env _).
    + exists [], (Raise e). split; [intros e' He; inversion He |].
      split; [intros names probas H; discriminate | reflexivity].
Qed.

Lemma writes_to_github_app t1 t2 :
  existsb writes_to_github (t1 ++ t2)
  = existsb writes_to_github t1 || existsb writes_to_github t2.
Proof. apply existsb_app. Qed.

Lemma existsb_false_forall {A} (P : A -> bool) (l : list A) :
  (forall x, x ∈ l -> P x = false) -> existsb P l = false.
Proof.
  induction l as [|x l IH]; intros H; simpl; [done |].
  rewrite H by left. apply IH. intros y Hy. apply H. by right.
Qed.

(** X16. [add_labels_to_issue] never applies a label that was not
    predicted or that the repository does not allow: the labels of an
    [add_labels] call are not empty, they are a subsequence of the
    predicted labels, the issue handle was obtained, and when the YAML
    file of the repository lists the labels to predict they all belong to
    that list. *)
Theorem added_labels_are_predicted_and_allowed
    env self iid owner name num predictions names :
  AddLabels names
    ∈ (add_labels_to_issue env self iid owner name num predictions).1 ->
  names <> [] /\
  names `sublist_of` labels predictions /\
  get_issue_handle env iid owner name num = Ok tt /\
  exists yaml,
    get_yaml env owner name = Ok yaml /\
    forall allowed, allow_list yaml = Some allowed ->
                    Forall (fun n => n ∈ allowed) names.
Proof.
  destruct (add_labels_to_issue_chosen env self iid owner name num
              predictions) as (t0 & chosen & Ht0 & Hchosen & ->).
  assert (Hno : AddLabels names ∉ t0).
  { intros Hin. by destruct (Ht0 _ Hin). }
  destruct chosen as [[ns ps]|e]; [| by intros H].
  destruct (Hchosen ns ps eq_refl) as (Hsub & _ & Hyaml).
  destruct (get_issue_handle env iid owner name num) as [[]|e];
    [| by intros H].
  destruct ns as [|n ns].
  - cbn [fst]. intros H. apply elem_of_app in H as [H|H]; [done |].
    apply elem_of_cons in H as [H|H]; [discriminate |].
    apply list_elem_of_singleton in H. discriminate.
  - assert (Hin : AddLabels names ∈ t0 ++ [AddLabels (n :: ns)] \/
                  AddLabels names
                    ∈ t0 ++ [AddLabels (n :: ns);
                             LogInfo ("Add `" +:+ join "`, `" (n :: ns)
                                      +:+ "` to the issue # " +:+ num);
                             CreateComment
                               (Applying (n :: ns) ps (app_url self)
                                         owner name)] ->
                  names = n :: ns).
    { intros [H|H]; apply elem_of_app in H as [H|H]; try done.
      - apply list_elem_of_singleton in H. by inversion H.
      - apply elem_of_cons in H as [H|H]; [by inversion H |].
        apply elem_of_cons in H as [H|H]; [discriminate |].
        apply list_elem_of_singleton in H. discriminate. }
    intros H.
    assert (names = n :: ns) as ->.
    { apply Hin. destruct (issue_add_labels env (n :: ns)) as [[]|e];
        [right | left]; exact H. }
    split; [done |]. split; [exact Hsub |]. split; [reflexivity |].
    by apply Hyaml.
Qed.

Lemma added_labels_are_predicted_and_allowed_witness :
  let env :=
    mk_Env (fun _ _ => Ok sample_config) (fun _ _ _ => Ok tt)
           (fun _ _ _ => Ok (mk_IssueText "New issue" "It fails."))
           (fun _ _ => Ok (mk_Response 200 []))
           (fun _ => Ok (mk_LabelColumns [] ∅))
           (fun _ _ => Ok (Some {["predicted-labels" := ["bug"]]}))
           (fun _ _ _ _ => Ok tt) (fun _ => Ok tt) (fun _ => Ok tt)
           (fun _ => Ok 1%Z) in
  let predictions :=
    mk_Predictions ["bug"; "feature"] [decimal 9 10; decimal 8 10] in
  ["bug"] <> [] /\
  ["bug"] `sublist_of` labels predictions /\
  get_issue_handle env "10000" "kubeflow" "examples" "1" = Ok tt /\
  exists yaml,
    get_yaml env "kubeflow" "examples" = Ok yaml /\
    forall allowed, allow_list yaml = Some allowed ->
                    Forall (fun n => n ∈ allowed) ["bug"].
Proof.
  intros env predictions.
  apply (added_labels_are_predicted_and_allowed env sample_worker
           "10000" "kubeflow" "examples" "1" predictions ["bug"]).
  vm_compute. left.
Defined.

(** X17. A run of [add_labels_to_issue] that completes posts exactly one
    comment, as its last action. The comment announces labels exactly when
    labels were applied just before, and then it names the labels of that
    [add_labels] call, paired with probabilities they were predicted with;
    otherwise it says that the bot is not confident, and no label was
    applied. *)
Theorem completed_run_posts_exactly_one_comment
    env self iid owner name num predictions :
  let run := add_labels_to_issue env self iid owner name num predictions in
  run.2 = Ok tt ->
  exists t c,
    run.1 = t ++ [CreateComment c] /\
    existsb is_comment t = false /\
    issue_create_comment env c = Ok tt /\
    match c with
    | Applying names probas url o n =>
        AddLabels names ∈ t /\
        zip names probas
          `sublist_of` zip (labels predictions) (probabilities predictions) /\
        (url, o, n) = (app_url self, owner, name)
    | NotConfident url o n =>
        existsb adds_labels t = false /\
        (url, o, n) = (app_url self, owner, name)
    end.
Proof.
  intros run. subst run.
  destruct (add_labels_to_issue_chosen env self iid owner name num
              predictions) as (t0 & chosen & Ht0 & Hchosen & ->).
  assert (Hc0 : existsb is_comment t0 = false).
  { apply existsb_false_forall. intros e He. destruct (Ht0 e He) as [H _].
    unfold writes_to_github in H. by apply orb_false_iff in H as [H _]. }
  assert (Ha0 : existsb adds_labels t0 = false).
  { apply existsb_false_forall. intros e He. destruct (Ht0 e He) as [H _].
    unfold writes_to_github in H. by apply orb_false_iff in H as [_ H]. }
  destruct chosen as [[ns ps]|e]; [| discriminate].
  destruct (Hchosen ns ps eq_refl) as (_ & Hzip & _).
  destruct (get_issue_handle env iid owner name num) as [[]|e];
    [| discriminate].
  destruct ns as [|n ns].
  - cbn [fst snd]. intros Hc.
    exists (t0 ++ [LogWarning
                     ("Not confident enough to label this issue: # "
                      +:+ num)]),
           (NotConfident (app_url self) owner name).
    split; [by rewrite <- app_assoc |].
    split; [by rewrite existsb_app, Hc0 |].
    destruct (issue_create_comment env _) as [[]|]; [| discriminate].
    split; [reflexivity |].
    split; [by rewrite existsb_app, Ha0 | reflexivity].
  - destruct (issue_add_labels env (n :: ns)) as [[]|e]; [| discriminate].
    cbn [fst snd]. intros Hc.
    exists (t0 ++ [AddLabels (n :: ns);
                   LogInfo ("Add `" +:+ join "`, `" (n :: ns)
                            +:+ "` to the issue # " +:+ num)]),
           (Applying (n :: ns) ps (app_url self) owner name).
    split; [by rewrite <- app_assoc |].
    split; [by rewrite existsb_app, Hc0 |].
    destruct (issue_create_comment env _) as [[]|]; [| discriminate].
    split; [reflexivity |].
    split; [| split; [exact Hzip | reflexivity]].
    apply elem_of_app. right. left.
Qed.

Lemma completed_run_posts_exactly_one_comment_witness :
  let env := sample_env (Ok sample_config) (mk_Response 200 [])
                        (mk_LabelColumns [] ∅) in
  let predictions := mk_Predictions ["bug"] [decimal 9 10] in
  let run := add_labels_to_issue env sample_worker "10000" "kubeflow"
               "examples" "1" predictions in
  exists t c,
    run.1 = t ++ [CreateComment c] /\
    existsb is_comment t = false /\
    issue_create_comment env c = Ok tt /\
    match c with
    | Applying names probas url o n =>
        AddLabels names ∈ t /\
        zip names probas
          `sublist_of` zip (labels predictions) (probabilities predictions) /\
        (url, o, n) = (app_url sample_worker, "kubeflow", "examples")
    | NotConfident url o n =>
        existsb adds_labels t = false /\
        (url, o, n) = (app_url sample_worker, "kubeflow", "examples")
    end.
Proof.
  intros env predictions.
  apply (completed_run_posts_exactly_one_comment env sample_worker
           "10000" "kubeflow" "examples" "1" predictions).
  reflexivity.
Defined.

(** *** What the stages of the processing leave in the trace *)

Lemma load_yaml_quiet env (P : event -> bool) self owner name :
  quiet P (load_yaml env self owner name).
Proof. unfold load_yaml. quiet. Qed.

Lemma load_yaml_Ok_inv env self owner name self' :
  (load_yaml env self owner name).2 = Ok self' ->
  exists cfg, repo_config env owner name = Ok cfg /\
              self' = configured self cfg.
Proof.
  unfold load_yaml. destruct (repo_config env owner name) as [cfg|e];
    [| discriminate].
  intros H. inversion H. eauto.
Qed.

Lemma download_model_from_gcs_quiet env P self :
  P = is_performance_log \/ P = writes_to_github ->
  quiet P (download_model_from_gcs env self).
Proof. intros [-> | ->]; unfold download_model_from_gcs; quiet. Qed.

Lemma download_model_from_gcs_Ok_inv env self cfg :
  config self = Some cfg ->
  (download_model_from_gcs env self).2 = Ok tt ->
  download_file_from_gcs env (model_bucket_name cfg) (model_gcs_path cfg)
                         (model_local_path cfg) = Ok tt /\
  download_file_from_gcs env (model_bucket_name cfg) (labels_gcs_path cfg)
                         (labels_local_path cfg) = Ok tt.
Proof.
  intros Hcfg. unfold download_model_from_gcs, get_config. rewrite Hcfg.
  cbn [lift mbind io_bind emit app].
  destruct (download_file_from_gcs env _ (model_gcs_path cfg) _) as [[]|e];
    [| discriminate].
  cbn [lift mbind io_bind emit app]. intros H. by split.
Qed.

Lemma predict_labels_quiet env P self owner name num :
  P = is_performance_log \/ P = writes_to_github ->
  quiet P (predict_labels env self owner name num).
Proof.
  intros [-> | ->];
    unfold predict_labels, predict_issue_probability, get_issue_embedding,
           load_label_columns; quiet.
Qed.

Lemma add_labels_to_issue_quiet env self iid owner name num predictions :
  quiet is_performance_log
        (add_labels_to_issue env self iid owner name num predictions).
Proof.
  unfold quiet.
  destruct (add_labels_to_issue_chosen env self iid owner name num
              predictions) as (t0 & chosen & Ht0 & _ & ->).
  assert (H0 : existsb is_performance_log t0 = false).
  { apply existsb_false_forall. intros e He. by destruct (Ht0 e He). }
  destruct chosen as [[ns ps]|e]; [| exact H0].
  destruct (get_issue_handle env iid owner name num) as [[]|e]; [| exact H0].
  destruct ns as [|n ns]; cbn [fst].
  - by rewrite existsb_app, H0.
  - destruct (issue_add_labels env (n :: ns)) as [[]|e]; cbn [fst];
      by rewrite existsb_app, H0.
Qed.

(** *** The processing of a message *)

(** The processing up to the prediction, when something later in it shows
    an event of the kind [P]. *)
Lemma processing_past_the_prediction env P self iid owner name num :
  P = is_performance_log \/ P = writes_to_github ->
  existsb P (processing env self iid owner name num).1 = true ->
  exists cfg preds emb,
    repo_config env owner name = Ok cfg /\
    (download_model_from_gcs env (configured self cfg)).2 = Ok tt /\
    (predict_labels env (configured self cfg) owner name num).2
    = Ok (preds, emb) /\
    existsb P
      (_ ← add_labels_to_issue env (configured self cfg) iid owner name num
             preds;
       n ← lift (py_int env num);
       emit (LogPrediction owner name n (labels preds))).1 = true /\
    (processing env self iid owner name num).2
    = (_ ← add_labels_to_issue env (configured self cfg) iid owner name num
             preds;
       n ← lift (py_int env num);
       emit (LogPrediction owner name n (labels preds))).2.
Proof.
  intros HP H. unfold processing in *.
  apply loud_bind_inv in H as (self' & H1 & H); [| apply load_yaml_quiet].
  rewrite io_bind_result, H1.
  apply load_yaml_Ok_inv in H1 as (cfg & Hcfg & ->).
  apply loud_bind_inv in H as ([] & H2 & H);
    [| by apply download_model_from_gcs_quiet].
  rewrite io_bind_result, H2.
  apply loud_bind_inv in H as ([preds emb] & H3 & H);
    [| by apply predict_labels_quiet].
  rewrite io_bind_result, H3.
  exists cfg, preds, emb. done.
Qed.

(** X18. The record that tracks the performance is written exactly when
    the processing of the message completes, as its last action; it lists
    the labels that [predict_labels] returned for the configuration of the
    repository, before the allow-list of the repository is applied, and
    the issue number as an integer. *)
Theorem performance_log_lists_the_unfiltered_predictions
    env self iid owner name num :
  let run := processing env self iid owner name num in
  (existsb is_performance_log run.1 = true <-> run.2 = Ok tt) /\
  (run.2 = Ok tt ->
   exists cfg preds emb n t,
     repo_config env owner name = Ok cfg /\
     (predict_labels env (configured self cfg) owner name num).2
     = Ok (preds, emb) /\
     py_int env num = Ok n /\
     run.1 = t ++ [LogPrediction owner name n (labels preds)] /\
     existsb is_performance_log t = false).
Proof.
  intros run.
  assert (Hshape : run.2 = Ok tt ->
    exists cfg preds emb n t,
      repo_config env owner name = Ok cfg /\
      (predict_labels env (configured self cfg) owner name num).2
      = Ok (preds, emb) /\
      py_int env num = Ok n /\
      run.1 = t ++ [LogPrediction owner name n (labels preds)] /\
      existsb is_performance_log t = false).
  { subst run. unfold processing. intros H.
    apply io_bind_Ok_inv in H as (self' & H1 & H & ->).
    pose proof (load_yaml_quiet env is_performance_log self owner name)
      as Q1.
    apply load_yaml_Ok_inv in H1 as (cfg & Hcfg & ->).
    apply io_bind_Ok_inv in H as ([] & H2 & H & ->).
    pose proof (download_model_from_gcs_quiet env is_performance_log
                  (configured self cfg) (or_introl eq_refl)) as Q2.
    apply io_bind_Ok_inv in H as ([preds emb] & H3 & H & ->).
    pose proof (predict_labels_quiet env is_performance_log
                  (configured self cfg) owner name num
                  (or_introl eq_refl)) as Q3.
    apply io_bind_Ok_inv in H as ([] & H4 & H & ->).
    pose proof (add_labels_to_issue_quiet env (configured self cfg)
                  iid owner name num preds) as Q4.
    destruct (py_int env num) as [n|e] eqn:Hn; [| discriminate].
    exists cfg, preds, emb, n.
    exists ((load_yaml env self owner name).1
            ++ (download_model_from_gcs env (configured self cfg)).1
            ++ (predict_labels env (configured self cfg) owner name num).1
            ++ (add_labels_to_issue env (configured self cfg) iid owner name
                  num preds).1).
    split; [done |]. split; [done |]. split; [done |].
    cbn [lift mbind io_bind emit app fst].
    split; [by rewrite <- !app_assoc |].
    unfold quiet in *. by rewrite !existsb_app, Q1, Q2, Q3, Q4. }
  subst run. split; [| exact Hshape]. split.
  - intros H.
    destruct (processing_past_the_prediction env is_performance_log self
                iid owner name num (or_introl eq_refl) H)
      as (cfg & preds & emb & _ & _ & _ & Hloud & ->).
    apply loud_bind_inv in Hloud as ([] & H4 & Hloud);
      [| apply add_labels_to_issue_quiet].
    rewrite io_bind_result, H4.
    by destruct (py_int env num).
  - intros H. destruct (Hshape H) as (cfg & preds & emb & n & t & _ & _ & _ & Ht & _).
    rewrite Ht, existsb_app. simpl. by rewrite orb_true_r.
Qed.

(** X19. Nothing is written to GitHub, neither label nor comment, unless
    the configuration of the repository was built, both downloads from
    Cloud Storage succeeded and [predict_labels] returned a prediction. *)
Theorem github_is_written_only_after_a_prediction
    env self iid owner name num :
  existsb writes_to_github (processing env self iid owner name num).1
  = true ->
  exists cfg preds emb,
    repo_config env owner name = Ok cfg /\
    download_file_from_gcs env (model_bucket_name cfg) (model_gcs_path cfg)
                           (model_local_path cfg) = Ok tt /\
    download_file_from_gcs env (model_bucket_name cfg) (labels_gcs_path cfg)
                           (labels_local_path cfg) = Ok tt /\
    (predict_labels env (configured self cfg) owner name num).2
    = Ok (preds, emb).
Proof.
  intros H.
  destruct (processing_past_the_prediction env writes_to_github self
              iid owner name num (or_intror eq_refl) H)
    as (cfg & preds & emb & Hcfg & Hd & Hp & _ & _).
  destruct (download_model_from_gcs_Ok_inv env (configured self cfg) cfg
              eq_refl Hd) as [Hd1 Hd2].
  exists cfg, preds, emb. done.
Qed.

Lemma github_is_written_only_after_a_prediction_witness :
  let env := sample_env (Ok sample_config) (mk_Response 404 [])
                        (mk_LabelColumns [] ∅) in
  exists cfg preds emb,
    repo_config env "kubeflow" "examples" = Ok cfg /\
    download_file_from_gcs env (model_bucket_name cfg) (model_gcs_path cfg)
                           (model_local_path cfg) = Ok tt /\
    download_file_from_gcs env (model_bucket_name cfg) (labels_gcs_path cfg)
                           (labels_local_path cfg) = Ok tt /\
    (predict_labels env (configured sample_worker cfg)
       "kubeflow" "examples" "1").2 = Ok (preds, emb).
Proof.
  intros env.
  apply (github_is_written_only_after_a_prediction env sample_worker
           "10000" "kubeflow" "examples" "1").
  reflexivity.
Defined.

(** *** Exceptions the callback does not catch *)

(** X20. An exception of the processing that does not derive from
    [Exception] (such as [SystemExit] or [KeyboardInterrupt]) passes
    through the callback: the callback raises it, logs no error and does
    not acknowledge the message. *)
Theorem base_exception_leaves_the_message_unacknowledged
    env self message iid owner name num e :
  attributes message !! "installation_id" = Some iid ->
  attributes message !! "repo_owner" = Some owner ->
  attributes message !! "repo_name" = Some name ->
  attributes message !! "issue_num" = Some num ->
  (processing env self iid owner name num).2 = Raise e ->
  is_Exception (exn_class e) = false ->
  (callback env self message).2 = Raise e /\
  ack_count (callback env self message).1 = 0%nat /\
  (callback env self message).1
  = Effect (LogInfo ("Receive issue #" +:+ num +:+ " from "
                     +:+ owner +:+ "/" +:+ name))
      :: (Effect <$> (processing env self iid owner name num).1).
Proof.
  intros H1 H2 H3 H4 Hraise Hbase.
  rewrite callback_unfold. cbv zeta.
  rewrite (attribute_present _ _ _ H1), (attribute_present _ _ _ H2),
          (attribute_present _ _ _ H3), (attribute_present _ _ _ H4).
  destruct (processing env self iid owner name num) as [t r].
  cbn [snd] in Hraise. subst r. rewrite Hbase. cbn [fst snd].
  split; [reflexivity |]. split; [| reflexivity].
  by rewrite ack_count_cons_effect, ack_count_effects.
Qed.

Lemma base_exception_leaves_the_message_unacknowledged_witness :
  let env := sample_env (Raise (mk_exn KeyboardInterrupt EmptyString))
               (mk_Response 200 []) (mk_LabelColumns [] ∅) in
  (callback env sample_worker sample_message).2
  = Raise (mk_exn KeyboardInterrupt EmptyString) /\
  ack_count (callback env sample_worker sample_message).1 = 0%nat /\
  (callback env sample_worker sample_message).1
  = Effect (LogInfo ("Receive issue #" +:+ "1" +:+ " from "
                     +:+ "kubeflow" +:+ "/" +:+ "examples"))
      :: (Effect <$> (processing env sample_worker "10000" "kubeflow"
                        "examples" "1").1).
Proof.
  intros env.
  apply (base_exception_leaves_the_message_unacknowledged env sample_worker
           sample_message "10000" "kubeflow" "examples" "1"
           (mk_exn KeyboardInterrupt EmptyString)); reflexivity.
Defined.

End WorkerCoverage.
